(** * Composite reflectivity (pyart/retrieve/comp_z.py)

    A shallow embedding of [upsample] and [composite_reflectivity] and of the
    numpy operations they call, followed by the properties of the composite
    product.

    Conventions of the embedding.
    - Floating point samples (reflectivity, correlation, coordinates,
      azimuths, times) are rationals [Q]; only their order and the product
      with [1.0] are used, NaN is left out.
    - A 2-D numpy array is the list of its rows together with its column
      count, so that an array of shape (0, c) keeps its second dimension.
    - A [numpy.ma.MaskedArray] holds, per cell, the underlying datum and the
      mask bit ([true] = invalid).  A plain [ndarray] is the same with every
      mask bit [false] (numpy's [nomask]).
    - A pandas timestamp is an integer number of ticks of the resolution
      of its index ([Z]); NaT is [None].
    - Python exceptions are values of [exn]; a computation that may raise
      returns a [result]. *)

From Stdlib Require Import String.
From Stdlib Require Import List ZArith QArith Qminmax Qround Bool Lia.
From Stdlib Require Import Permutation Sorted.
Import ListNotations.

Local Open Scope string_scope.
Local Open Scope Q_scope.

Set Implicit Arguments.

(* ===================================================================== *)
(** ** Exceptions and the error monad *)
(* ===================================================================== *)

Inductive exn : Type :=
| UnboundLocalError (var : string)
| IndexError
| ValueError
| KeyError (key : string).

(** The Python class name of an exception. *)
Definition exn_name (e : exn) : string :=
  match e with
  | UnboundLocalError _ => "UnboundLocalError"
  | IndexError => "IndexError"
  | ValueError => "ValueError"
  | KeyError _ => "KeyError"
  end.

Inductive result (A : Type) : Type :=
| Ok (a : A)
| Raise (e : exn).

Arguments Ok {A} a.
Arguments Raise {A} e.

Definition bind {A B : Type} (c : result A) (k : A -> result B) : result B :=
  match c with
  | Ok a => k a
  | Raise e => Raise e
  end.

Notation "x <- c ;; k" := (bind c (fun x => k))
  (at level 61, c at next level, right associativity).

Fixpoint mapM {A B : Type} (f : A -> result B) (l : list A) : result (list B) :=
  match l with
  | [] => Ok []
  | a :: l' => b <- f a ;; bs <- mapM f l' ;; Ok (b :: bs)
  end.

Fixpoint foldM {A S : Type} (f : S -> A -> result S) (s : S) (l : list A)
  : result S :=
  match l with
  | [] => Ok s
  | a :: l' => s' <- f s a ;; foldM f s' l'
  end.

(* ===================================================================== *)
(** ** Python and numpy indexing *)
(* ===================================================================== *)

(** [a[i]] on a 1-D array: a negative index counts from the end, an index
    outside [-n, n) raises IndexError. *)
Definition py_getitem {A : Type} (l : list A) (i : Z) : result A :=
  let n := Z.of_nat (length l) in
  let k := if (i <? 0)%Z then (i + n)%Z else i in
  if ((0 <=? k) && (k <? n))%Z
  then match nth_error l (Z.to_nat k) with
       | Some a => Ok a
       | None => Raise IndexError
       end
  else Raise IndexError.

(** Bound of a slice [a[s:e]]: negative bounds count from the end, and both
    are clipped to [0, n]. *)
Definition slice_bound (n i : Z) : Z :=
  if (i <? 0)%Z then Z.max (i + n) 0 else Z.min i n.

Definition py_slice {A : Type} (l : list A) (s e : Z) : list A :=
  let n := Z.of_nat (length l) in
  let s' := slice_bound n s in
  let e' := slice_bound n e in
  firstn (Z.to_nat (e' - s')) (skipn (Z.to_nat s') l).

(* ===================================================================== *)
(** ** Two-dimensional arrays *)
(* ===================================================================== *)

Record ndarray2 (A : Type) : Type := mk_ndarray2 {
  arr_rows : list (list A);
  arr_ncols : nat
}.

Definition nrows {A : Type} (a : ndarray2 A) : nat := length (arr_rows a).

(** [a.shape] *)
Definition shape {A : Type} (a : ndarray2 A) : nat * nat :=
  (nrows a, arr_ncols a).

Definition shape_eqb (s t : nat * nat) : bool :=
  (fst s =? fst t)%nat && (snd s =? snd t)%nat.

(** [a[s:e, :]] *)
Definition slice_rows {A : Type} (a : ndarray2 A) (s e : Z) : ndarray2 A :=
  {| arr_rows := py_slice (arr_rows a) s e; arr_ncols := arr_ncols a |}.

(** [a[ids]] for an integer index array [ids] (indices produced by argsort
    are non-negative); an index beyond the last row raises IndexError. *)
Definition take {A : Type} (l : list A) (ids : list nat) : result (list A) :=
  mapM (fun i => match nth_error l i with
                 | Some r => Ok r
                 | None => Raise IndexError
                 end) ids.

Definition take_rows {A : Type} (a : ndarray2 A) (ids : list nat)
  : result (ndarray2 A) :=
  rs <- take (arr_rows a) ids ;;
  Ok {| arr_rows := rs; arr_ncols := arr_ncols a |}.

(** [a[-1,:] = a[0,:]] on an array the caller owns: IndexError when the
    array has no row. *)
Definition close_wrap {A : Type} (a : ndarray2 A) : result (ndarray2 A) :=
  match arr_rows a with
  | [] => Raise IndexError
  | r0 :: _ =>
      Ok {| arr_rows := removelast (arr_rows a) ++ [r0];
            arr_ncols := arr_ncols a |}
  end.

(** [numpy.kron(a, b)] on 2-D arrays, over a product [mul]. *)
Definition kron {A B C : Type} (mul : A -> B -> C)
    (a : ndarray2 A) (b : ndarray2 B) : ndarray2 C :=
  {| arr_rows :=
       flat_map (fun ra =>
         map (fun rb => flat_map (fun x => map (fun y => mul x y) rb) ra)
             (arr_rows b))
         (arr_rows a);
     arr_ncols := (arr_ncols a * arr_ncols b)%nat |}.

(** [numpy.ones((r, c))] *)
Definition ones (r c : nat) : ndarray2 Q :=
  {| arr_rows := repeat (repeat 1%Q c) r; arr_ncols := c |}.

(* ===================================================================== *)
(** ** Masked arrays *)
(* ===================================================================== *)

Record cell : Type := mk_cell {
  cdata : Q;
  cmask : bool
}.

Definition marray : Type := ndarray2 cell.

(** The value a reader of the masked array sees: nothing when masked. *)
Definition valid_value (c : cell) : option Q :=
  if cmask c then None else Some (cdata c).

(** Product of a masked sample with a plain number (the ufunc [multiply]
    keeps the mask of its masked operand). *)
Definition cell_scale (c : cell) (y : Q) : cell :=
  {| cdata := cdata c * y; cmask := cmask c |}.

Definition Qltb (x y : Q) : bool :=
  match x ?= y with
  | Lt => true
  | _ => false
  end.

(** A sample of a masked boolean array. *)
Record mbool : Type := mk_mbool {
  bdata : bool;
  bmask : bool
}.

(** [rho_hv < rhv_value] on a masked array: a masked boolean array, with
    the mask of [rho_hv]. *)
Definition less_than (rho_hv : marray) (v : Q) : ndarray2 mbool :=
  {| arr_rows := map (map (fun c => {| bdata := Qltb (cdata c) v;
                                       bmask := cmask c |}))
                     (arr_rows rho_hv);
     arr_ncols := arr_ncols rho_hv |}.

(** [numpy.ma.make_mask(condition, shrink=False)]: masked entries of the
    condition are filled with True. *)
Definition make_mask (cond : ndarray2 mbool) : ndarray2 bool :=
  {| arr_rows := map (map (fun b => if bmask b then true else bdata b))
                     (arr_rows cond);
     arr_ncols := arr_ncols cond |}.

Fixpoint map2 {A B C : Type} (f : A -> B -> C) (l : list A) (m : list B)
  : list C :=
  match l, m with
  | a :: l', b :: m' => f a b :: map2 f l' m'
  | _, _ => []
  end.

(** [numpy.ma.masked_where(condition, a)]: the data of [a] with the mask
    [condition | a.mask]; masked values of the condition are masked in the
    result as well.  Shapes that differ raise IndexError. *)
Definition masked_where (cond : ndarray2 mbool) (a : marray)
  : result marray :=
  let m := make_mask cond in
  if shape_eqb (shape m) (shape a)
  then Ok {| arr_rows :=
               map2 (map2 (fun b c => {| cdata := cdata c;
                                         cmask := b || cmask c |}))
                    (arr_rows m) (arr_rows a);
             arr_ncols := arr_ncols a |}
  else Raise IndexError.

(* ===================================================================== *)
(** ** The sweep stack : a 3-D array [sweep, azimuth-index, gate] *)
(* ===================================================================== *)

Record ndarray3 (A : Type) : Type := mk_ndarray3 {
  layers : list (list (list A));
  layer_shape : nat * nat
}.

(** [z[np.newaxis,:,:]] *)
Definition newaxis {A : Type} (z : ndarray2 A) : ndarray3 A :=
  {| layers := [arr_rows z]; layer_shape := shape z |}.

Definition drop_mask (c : cell) : cell :=
  {| cdata := cdata c; cmask := false |}.

(** [numpy.concatenate([a, b])] along axis 0.  The trailing dimensions must
    agree (ValueError otherwise).  This is numpy's own [concatenate], not
    [numpy.ma.concatenate]: the result is built from the data of the
    operands and the input masks are not preserved. *)
Definition concatenate (a b : ndarray3 cell) : result (ndarray3 cell) :=
  if shape_eqb (layer_shape a) (layer_shape b)
  then Ok {| layers := map (map (map drop_mask)) (layers a ++ layers b);
             layer_shape := layer_shape a |}
  else Raise ValueError.

(** Default [fill_value] of a floating point masked array. *)
Definition default_fill_value : Q := 100000000000000000000.

(** Maximum of two samples where a masked one counts as minus infinity and
    the result is masked when both are. *)
Definition cell_max (a b : cell) : cell :=
  if cmask a then b
  else if cmask b then a
  else {| cdata := Qmax (cdata a) (cdata b); cmask := false |}.

Definition fill_masked (c : cell) : cell :=
  if cmask c then {| cdata := default_fill_value; cmask := true |} else c.

(** [a.max(axis=0)] of a masked 3-D array: masked samples are filled with
    the smallest value before the reduction, a cell of the result is masked
    when the whole column is, and then carries the fill value.  A stack
    without layer has no maximum (ValueError). *)
Definition max_axis0 (a : ndarray3 cell) : result marray :=
  match layers a with
  | [] => Raise ValueError
  | l0 :: ls =>
      Ok {| arr_rows :=
              map (map fill_masked)
                  (fold_left (map2 (map2 cell_max)) ls l0);
            arr_ncols := snd (layer_shape a) |}
  end.

(* ===================================================================== *)
(** ** The radar volume *)
(* ===================================================================== *)

(** The part of pyart's [Radar] object the function reads.  [get_field] is
    the method of the object; it may raise. *)
Record Radar : Type := mk_Radar {
  sweep_number : list Z;
  sweep_start_ray_index : list Z;
  sweep_end_ray_index : list Z;
  get_field : Z -> string -> result marray;
  gate_longitude : ndarray2 Q;
  gate_latitude : ndarray2 Q;
  azimuth : list Q;
  time : list Q;
  time_units : string
}.

(** One entry of the returned dictionary. *)
Record entry (A : Type) : Type := mk_entry {
  data : A;
  units : string;
  info : string
}.

(** The returned dictionary [comp_dict]. *)
Record comp_dict : Type := mk_comp_dict {
  longitude : entry (ndarray2 Q);
  latitude : entry (ndarray2 Q);
  composite_reflectivity_entry : entry marray;
  time_entry : entry (option Z)
}.

(** [DatetimeIndex.mean()] on timestamps given in ticks: NaT ([None])
    when there is no timestamp; otherwise the sum of the ticks divided by
    their number, and the quotient converted to a whole tick, which drops
    its fractional part (truncation towards zero).  The sum is exact here;
    the rounding of the float64 accumulation is left out, as for every
    float. *)
Definition Zsum (l : list Z) : Z := fold_right Z.add 0%Z l.

Definition mean (l : list Z) : option Z :=
  match l with
  | [] => None
  | _ => Some (Z.quot (Zsum l) (Z.of_nat (length l)))
  end.

(* ===================================================================== *)
(** ** comp_z.py *)
(* ===================================================================== *)

(** [upsample(x)]: [np.kron(x, np.ones((2,1)))].  [kron] keeps the
    subclass of its operand: the product of a masked array is a masked
    array that carries, per sample, the mask of [x]. *)
Definition upsample (x : marray) : marray :=
  kron cell_scale x (ones 2 1).

(** The variables the loop assigns and the code after it reads. *)
Record locals : Type := mk_locals {
  lon_0 : option (ndarray2 Q);
  lat_0 : option (ndarray2 Q);
  z_stack : option (ndarray3 cell)
}.

Definition no_locals : locals :=
  {| lon_0 := None; lat_0 := None; z_stack := None |}.

Definition read_local {A : Type} (name : string) (v : option A) : result A :=
  match v with
  | Some a => Ok a
  | None => Raise (UnboundLocalError name)
  end.

Section CompZ.

(** [numpy.argsort] on a 1-D array, with its default [kind]. *)
Variable argsort : list Q -> list nat.

(** Line 104, [to_datetime(num2date(time, units).astype(str))]: the time
    array decoded, with its units, to the timestamps of a DatetimeIndex, in
    ticks; it raises when the units or a value cannot be decoded. *)
Variable num2date : string -> list Q -> result (list Z).

(** Lines 64-67: the optional correlation filter of one sweep. *)
Definition rhv_filter_step (radar : Radar) (rhv_filter : bool)
    (rhv_value : Q) (sweep : Z) (z : marray) : result marray :=
  if rhv_filter
  then rho_hv <- get_field radar sweep "cross_correlation_ratio" ;;
       masked_where (less_than rho_hv rhv_value) z
  else Ok z.

(** Lines 76-81: the rays of the field and of both coordinate grids are
    reordered by the argsort of the azimuths. *)
Definition reorder (z : marray) (lon lat : ndarray2 Q) (az : list Q)
  : result (marray * ndarray2 Q * ndarray2 Q) :=
  let az_ids := argsort az in
  z <- take_rows z az_ids ;;
  lon <- take_rows lon az_ids ;;
  lat <- take_rows lat az_ids ;;
  Ok (z, lon, lat).

(** Lines 90-92: [if lon.shape[0] < 720: z = upsample(z)] *)
Definition upsample_if_coarse (lon : ndarray2 Q) (z : marray) : marray :=
  if (nrows lon <? 720)%nat then upsample z else z.

(** Lines 56-98: the body of the loop over the sweeps. *)
Definition sweep_body (radar : Radar) (rhv_filter : bool) (rhv_value : Q)
    (st : locals) (sweep : Z) : result locals :=
  s_idx <- py_getitem (sweep_start_ray_index radar) sweep ;;
  e_end <- py_getitem (sweep_end_ray_index radar) sweep ;;
  let e_idx := (e_end + 1)%Z in
  z <- get_field radar sweep "reflectivity" ;;
  z <- rhv_filter_step radar rhv_filter rhv_value sweep z ;;
  let lon := slice_rows (gate_longitude radar) s_idx e_idx in
  let lat := slice_rows (gate_latitude radar) s_idx e_idx in
  let az := py_slice (azimuth radar) s_idx e_idx in
  zll <- reorder z lon lat az ;;
  let z := fst (fst zll) in
  let lon := snd (fst zll) in
  let lat := snd zll in
  geo <- (if (sweep =? 0)%Z
          then lon0 <- close_wrap lon ;;
               lat0 <- close_wrap lat ;;
               Ok (Some lon0, Some lat0)
          else Ok (lon_0 st, lat_0 st)) ;;
  let z := upsample_if_coarse lon z in
  stack <- (if (sweep =? 0)%Z
            then Ok (newaxis z)
            else zs <- read_local "z_stack" (z_stack st) ;;
                 concatenate zs (newaxis z)) ;;
  Ok {| lon_0 := fst geo; lat_0 := snd geo; z_stack := Some stack |}.

(** Lines 100-113: the reduction, the mean time and the dictionary. *)
Definition finish (radar : Radar) (st : locals) : result comp_dict :=
  zs <- read_local "z_stack" (z_stack st) ;;
  compz <- max_axis0 zs ;;
  stamps <- num2date (time_units radar) (time radar) ;;
  let dtime := mean stamps in
  lon0 <- read_local "lon_0" (lon_0 st) ;;
  lat0 <- read_local "lat_0" (lat_0 st) ;;
  Ok {| longitude :=
          {| data := lon0; units := "degrees";
             info := "reordered longitude grid, [az,range]" |};
        latitude :=
          {| data := lat0; units := "degrees";
             info := "reordered latitude grid, [az,range]" |};
        composite_reflectivity_entry :=
          {| data := compz; units := "dBZ";
             info := "composite refelctivity computed from calculating the max radar value in each radar gate vertically after reordering" |};
        time_entry :=
          {| data := dtime; units := "timestamp";
             info := "mean time of all scans" |} |}.

(** [composite_reflectivity(radar, rhv_filter, rhv_value, verbose)];
    [verbose] is not read by the body. *)
Definition composite_reflectivity (radar : Radar) (rhv_filter : bool)
    (rhv_value : Q) (verbose : bool) : result comp_dict :=
  st <- foldM (sweep_body radar rhv_filter rhv_value) no_locals
              (sweep_number radar) ;;
  finish radar st.

End CompZ.

(** The defaults of the keyword arguments. *)
Definition default_rhv_filter : bool := true.
Definition default_rhv_value : Q := 95 # 100.
Definition default_verbose : bool := false.

(* ===================================================================== *)
(** ** numpy.argsort *)
(* ===================================================================== *)

(** [l[i]] for an index known to be in range. *)
Definition at_index (l : list Q) (i : nat) : Q := nth i l 0.

(** What numpy promises of [argsort(a)], whatever the [kind]: an index
    array that is a permutation of [range(len(a))] and through which [a]
    reads in non-decreasing order. *)
Definition is_argsort (a : list Q) (ids : list nat) : Prop :=
  Permutation ids (seq 0 (length a)) /\
  Sorted Qle (map (at_index a) ids).

(** An argsort to run the examples with: the introsort of numpy's npysort
    ([aquicksort] with its [aheapsort] fall-back, the generic routine behind
    the default [kind] 'quicksort' of numpy before 2.0), run on the index
    array [0, 1, ..., n-1].  Pointers into the index array are positions;
    loops carry a fuel that the array length bounds.  Other numpy versions
    and processors sort with other routines, which order equal keys
    differently; the sweeps of the examples have no two equal azimuths, and
    there every routine returns the one permutation that sorts them.  The
    general theorems do not depend on this routine: [argsort] is a parameter
    of [composite_reflectivity]. *)
Module NpySort.

Definition SMALL_QUICKSORT : nat := 16.

Section Keys.

Variable v : list Q.

Definition key (i : nat) : Q := at_index v i.

Definition rd (t : list nat) (p : nat) : nat := nth p t 0%nat.

Fixpoint wr (t : list nat) (p x : nat) : list nat :=
  match t, p with
  | [], _ => []
  | _ :: t', O => x :: t'
  | y :: t', S p' => y :: wr t' p' x
  end.

(** [INTP_SWAP] of the entries at positions [p] and [q]. *)
Definition swap (t : list nat) (p q : nat) : list nat :=
  let a := rd t p in
  let b := rd t q in
  wr (wr t p b) q a.

(** [do ++pi; while (LT(v[tosort[pi]], vp));] *)
Fixpoint scan_right (fuel : nat) (t : list nat) (vp : Q) (pi : nat) : nat :=
  match fuel with
  | O => S pi
  | S f =>
      if Qltb (key (rd t (S pi))) vp
      then scan_right f t vp (S pi)
      else S pi
  end.

(** [do --pj; while (LT(vp, v[tosort[pj]]));] *)
Fixpoint scan_left (fuel : nat) (t : list nat) (vp : Q) (pj : nat) : nat :=
  match fuel with
  | O => pred pj
  | S f =>
      if Qltb vp (key (rd t (pred pj)))
      then scan_left f t vp (pred pj)
      else pred pj
  end.

Fixpoint partition_loop (fuel : nat) (t : list nat) (vp : Q)
    (pi pj : nat) : list nat * nat :=
  match fuel with
  | O => (t, pi)
  | S f =>
      let pi' := scan_right (length t) t vp pi in
      let pj' := scan_left (length t) t vp pj in
      if (pj' <=? pi')%nat then (t, pi')
      else partition_loop f (swap t pi' pj') vp pi' pj'
  end.

(** One pass of the quicksort partition on [pl..pr]: median of three,
    pivot parked at [pr - 1], the two scans, pivot put back at [pi]. *)
Definition partition_step (t : list nat) (pl pr : nat) : list nat * nat :=
  let pm := (pl + Nat.div2 (pr - pl))%nat in
  let t := if Qltb (key (rd t pm)) (key (rd t pl)) then swap t pm pl else t in
  let t := if Qltb (key (rd t pr)) (key (rd t pm)) then swap t pr pm else t in
  let t := if Qltb (key (rd t pm)) (key (rd t pl)) then swap t pm pl else t in
  let vp := key (rd t pm) in
  let t := swap t pm (pr - 1) in
  let r := partition_loop (length t) t vp pl (pr - 1) in
  (swap (fst r) (snd r) (pr - 1), snd r).

(** The inner loop of the insertion sort: entries larger than [vp] move
    one position up, then [vi] is stored at [pj]. *)
Fixpoint shift_up (fuel : nat) (t : list nat) (pl : nat) (vp : Q)
    (vi pj : nat) : list nat :=
  match fuel with
  | O => wr t pj vi
  | S f =>
      if (pl <? pj)%nat && Qltb vp (key (rd t (pj - 1)))
      then shift_up f (wr t pj (rd t (pj - 1))) pl vp vi (pj - 1)
      else wr t pj vi
  end.

Definition insertion_sort (t : list nat) (pl pr : nat) : list nat :=
  fold_left
    (fun t pi => let vi := rd t pi in
                 shift_up (length t) t pl (key vi) vi pi)
    (seq (S pl) (pr - pl)) t.

(** The sift-down loop of [aheapsort] on the one-based view
    [a = tosort + pl - 1] of [n] entries. *)
Fixpoint sift (fuel : nat) (t : list nat) (pl n tmp i j : nat) : list nat :=
  match fuel with
  | O => wr t (pl + i - 1) tmp
  | S f =>
      if (j <=? n)%nat
      then
        let j' := if (j <? n)%nat &&
                     Qltb (key (rd t (pl + j - 1))) (key (rd t (pl + j)))
                  then S j else j in
        if Qltb (key tmp) (key (rd t (pl + j' - 1)))
        then sift f (wr t (pl + i - 1) (rd t (pl + j' - 1)))
                  pl n tmp j' (j' + j')
        else wr t (pl + i - 1) tmp
      else wr t (pl + i - 1) tmp
  end.

Definition aheapsort (t : list nat) (pl n : nat) : list nat :=
  let t1 :=
    fold_left
      (fun t l => sift n t pl n (rd t (pl + l - 1)) l (l + l))
      (rev (seq 1 (Nat.div2 n))) t in
  fold_left
    (fun t m =>
       let tmp := rd t (pl + m - 1) in
       let t' := wr t (pl + m - 1) (rd t pl) in
       sift n t' pl (m - 1) tmp 1 2)
    (rev (seq 2 (n - 1))) t1.

Inductive pc : Type := AtTop | InWhile.

Fixpoint run (fuel : nat) (at_pc : pc) (t : list nat) (pl pr : nat)
    (cdepth : Z) (stack : list (nat * nat * Z)) : list nat :=
  match fuel with
  | O => t
  | S f =>
      let stack_pop (t : list nat) :=
        match stack with
        | [] => t
        | (pl', pr', d) :: st => run f AtTop t pl' pr' d st
        end in
      match at_pc with
      | AtTop =>
          if (cdepth <? 0)%Z
          then stack_pop (aheapsort t pl (pr - pl + 1))
          else run f InWhile t pl pr cdepth stack
      | InWhile =>
          if (SMALL_QUICKSORT <? pr - pl)%nat
          then
            let r := partition_step t pl pr in
            let pi := snd r in
            if (pi - pl <? pr - pi)%nat
            then run f InWhile (fst r) pl (pi - 1) (cdepth - 1)
                     ((S pi, pr, (cdepth - 1)%Z) :: stack)
            else run f InWhile (fst r) (S pi) pr (cdepth - 1)
                     ((pl, (pi - 1)%nat, (cdepth - 1)%Z) :: stack)
          else stack_pop (insertion_sort t pl pr)
      end
  end.

End Keys.

(** [npy_get_msb] *)
Definition npy_get_msb (n : nat) : Z := Z.log2 (Z.of_nat n).

Definition argsort (a : list Q) : list nat :=
  let n := length a in
  run a (4 * n + 4) AtTop (seq 0 n) 0 (n - 1) (npy_get_msb n * 2) [].

End NpySort.

(* ===================================================================== *)
(** ** Volumes used in the examples *)
(* ===================================================================== *)

(** A plain array as a masked array without mask. *)
Definition unmasked (a : ndarray2 Q) : marray :=
  {| arr_rows := map (map (fun x => {| cdata := x; cmask := false |}))
                     (arr_rows a);
     arr_ncols := arr_ncols a |}.

Definition array_of (rows : list (list Z)) (ncols : nat) : ndarray2 Q :=
  {| arr_rows := map (map inject_Z) rows; arr_ncols := ncols |}.

Fixpoint lookup_field (name : string) (tbl : list (string * list marray))
  : option (list marray) :=
  match tbl with
  | [] => None
  | (k, v) :: tbl' => if String.eqb k name then Some v else lookup_field name tbl'
  end.

(** A [get_field] that serves the sweeps of the listed fields and raises
    KeyError for any other field name. *)
Definition get_field_of (tbl : list (string * list marray))
  : Z -> string -> result marray :=
  fun sweep name =>
    match lookup_field name tbl with
    | None => Raise (KeyError name)
    | Some sweeps => py_getitem sweeps sweep
    end.

(** The decoder of the examples: it knows one units string, seconds since
    the epoch, decodes to ticks of one microsecond, and raises ValueError on
    any other units. *)
Definition epoch_units : string := "seconds since 1970-01-01T00:00:00Z".

Definition decoded (u : string) (ts : list Q) : result (list Z) :=
  if String.eqb u epoch_units
  then Ok (map (fun t => Qfloor (t * 1000000)) ts)
  else Raise ValueError.

Definition run (radar : Radar) (rhv_filter : bool) (rhv_value : Q)
  : result comp_dict :=
  composite_reflectivity NpySort.argsort decoded radar rhv_filter rhv_value
                         default_verbose.

(** A volume without sweep. *)
Definition empty_volume : Radar :=
  {| sweep_number := [];
     sweep_start_ray_index := [];
     sweep_end_ray_index := [];
     get_field := get_field_of [];
     gate_longitude := array_of [] 0;
     gate_latitude := array_of [] 0;
     azimuth := [];
     time := [];
     time_units := "seconds since 1970-01-01T00:00:00Z" |}.

(** Two sweeps of one ray and one gate.  Sweep 0 measures 50 dBZ with a
    correlation of 0.5, sweep 1 measures 10 dBZ with a correlation of
    0.99. *)
Definition clutter_volume : Radar :=
  {| sweep_number := [0; 1]%Z;
     sweep_start_ray_index := [0; 1]%Z;
     sweep_end_ray_index := [0; 1]%Z;
     get_field := get_field_of
       [("reflectivity",
         [unmasked (array_of [[50]]%Z 1); unmasked (array_of [[10]]%Z 1)]);
        ("cross_correlation_ratio",
         [unmasked {| arr_rows := [[1 # 2]]; arr_ncols := 1 |};
          unmasked {| arr_rows := [[99 # 100]]; arr_ncols := 1 |}])];
     gate_longitude := array_of [[-97]; [-97]]%Z 1;
     gate_latitude := array_of [[35]; [35]]%Z 1;
     azimuth := [0; 0];
     time := [0; 10];
     time_units := "seconds since 1970-01-01T00:00:00Z" |}.

(** One sweep of four rays and two gates, azimuths out of order. *)
Definition four_ray_volume : Radar :=
  {| sweep_number := [0]%Z;
     sweep_start_ray_index := [0]%Z;
     sweep_end_ray_index := [3]%Z;
     get_field := get_field_of
       [("reflectivity",
         [unmasked (array_of [[11; 12]; [21; 22]; [31; 32]; [41; 42]]%Z 2)])];
     gate_longitude := array_of [[1; 2]; [3; 4]; [5; 6]; [7; 8]]%Z 2;
     gate_latitude := array_of [[10; 20]; [30; 40]; [50; 60]; [70; 80]]%Z 2;
     azimuth := [10; 350; 190; 70];
     time := [0; 2; 4; 10];
     time_units := "seconds since 1970-01-01T00:00:00Z" |}.

(** The four-ray volume with a correlation field as well. *)
Definition four_ray_volume_with_rho : Radar :=
  {| sweep_number := sweep_number four_ray_volume;
     sweep_start_ray_index := sweep_start_ray_index four_ray_volume;
     sweep_end_ray_index := sweep_end_ray_index four_ray_volume;
     get_field := get_field_of
       [("reflectivity",
         [unmasked (array_of [[11; 12]; [21; 22]; [31; 32]; [41; 42]]%Z 2)]);
        ("cross_correlation_ratio",
         [unmasked (array_of [[1; 0]; [1; 1]; [0; 1]; [1; 1]]%Z 2)])];
     gate_longitude := gate_longitude four_ray_volume;
     gate_latitude := gate_latitude four_ray_volume;
     azimuth := azimuth four_ray_volume;
     time := time four_ray_volume;
     time_units := time_units four_ray_volume |}.

(** The same radar object with another [get_field] method. *)
Definition with_get_field (radar : Radar)
    (g : Z -> string -> result marray) : Radar :=
  {| sweep_number := sweep_number radar;
     sweep_start_ray_index := sweep_start_ray_index radar;
     sweep_end_ray_index := sweep_end_ray_index radar;
     get_field := g;
     gate_longitude := gate_longitude radar;
     gate_latitude := gate_latitude radar;
     azimuth := azimuth radar;
     time := time radar;
     time_units := time_units radar |}.

(** The same radar object with other coordinate grids. *)
Definition with_geolocation (radar : Radar) (lon lat : ndarray2 Q) : Radar :=
  {| sweep_number := sweep_number radar;
     sweep_start_ray_index := sweep_start_ray_index radar;
     sweep_end_ray_index := sweep_end_ray_index radar;
     get_field := get_field radar;
     gate_longitude := lon;
     gate_latitude := lat;
     azimuth := azimuth radar;
     time := time radar;
     time_units := time_units radar |}.

(** The sample at ray [i], gate [j]. *)
Definition cell_at {A : Type} (a : ndarray2 A) (i j : nat) : option A :=
  match nth_error (arr_rows a) i with
  | Some r => nth_error r j
  | None => None
  end.

(** One sweep of one ray and one gate: a valid reflectivity of 20 dBZ whose
    correlation sample, 0.99, is itself masked. *)
Definition masked_rho_volume : Radar :=
  {| sweep_number := [0]%Z;
     sweep_start_ray_index := [0]%Z;
     sweep_end_ray_index := [0]%Z;
     get_field := get_field_of
       [("reflectivity", [unmasked (array_of [[20]]%Z 1)]);
        ("cross_correlation_ratio",
         [{| arr_rows := [[{| cdata := 99 # 100; cmask := true |}]];
             arr_ncols := 1 |}])];
     gate_longitude := array_of [[-97]]%Z 1;
     gate_latitude := array_of [[35]]%Z 1;
     azimuth := [0];
     time := [0];
     time_units := "seconds since 1970-01-01T00:00:00Z" |}.

(** A decision procedure for [is_argsort]. *)
Fixpoint nodupb (l : list nat) : bool :=
  match l with
  | [] => true
  | x :: l' => negb (existsb (Nat.eqb x) l') && nodupb l'
  end.

Fixpoint sortedb (l : list Q) : bool :=
  match l with
  | [] => true
  | x :: l' =>
      match l' with
      | [] => true
      | y :: _ => Qle_bool x y && sortedb l'
      end
  end.

Definition is_argsortb (a : list Q) (ids : list nat) : bool :=
  (length ids =? length a)%nat &&
  forallb (fun i => (i <? length a)%nat) ids &&
  nodupb ids &&
  sortedb (map (at_index a) ids).

(** The last row of a grid repeats its first row. *)
Definition wrap_closed {A : Type} (a : ndarray2 A) : Prop :=
  (1 <= nrows a)%nat /\
  nth_error (arr_rows a) (nrows a - 1) = nth_error (arr_rows a) 0.

(** [g0] is the grid retained at sweep 0: the rows of [grid] in the index
    range of sweep 0, reordered by the argsort of the azimuths of sweep 0,
    with the overwrite of the last row as the only change. *)
Definition retained_from_sweep_0 (argsort : list Q -> list nat)
    (radar : Radar) (grid : ndarray2 Q) (g0 : ndarray2 Q) : Prop :=
  exists s e sorted,
    py_getitem (sweep_start_ray_index radar) 0 = Ok s /\
    py_getitem (sweep_end_ray_index radar) 0 = Ok e /\
    take_rows (slice_rows grid s (e + 1))
              (argsort (py_slice (azimuth radar) s (e + 1))) = Ok sorted /\
    close_wrap sorted = Ok g0 /\
    forall i, (i + 1 < nrows sorted)%nat ->
              nth_error (arr_rows g0) i = nth_error (arr_rows sorted) i.

(** The number of rows a sweep of [n] rays contributes to the stack. *)
Definition normalized_rows (n : nat) : nat :=
  if (n <? 720)%nat then (2 * n)%nat else n.

(** A sweep the loop body can process, whatever its ray count is: its index
    range and its reflectivity (after the optional filter) are available,
    the argsort of its azimuths is a sorting permutation, the field and the
    coordinate grids have a row for every azimuth, the field has [c] gates
    and the sweep contributes [N] rows. *)
Definition sweep_accepted (argsort : list Q -> list nat) (radar : Radar)
    (rhv_filter : bool) (rhv_value : Q) (N c : nat) (sweep : Z) : Prop :=
  exists s e z zf,
    py_getitem (sweep_start_ray_index radar) sweep = Ok s /\
    py_getitem (sweep_end_ray_index radar) sweep = Ok e /\
    get_field radar sweep "reflectivity" = Ok z /\
    rhv_filter_step radar rhv_filter rhv_value sweep z = Ok zf /\
    let az := py_slice (azimuth radar) s (e + 1) in
    is_argsort az (argsort az) /\
    (length az <= nrows zf)%nat /\
    (length az <= nrows (slice_rows (gate_longitude radar) s (e + 1)))%nat /\
    (length az <= nrows (slice_rows (gate_latitude radar) s (e + 1)))%nat /\
    arr_ncols zf = c /\
    normalized_rows (length az) = N.

(** The locals once sweep 0 has been processed: a stack of layers of [N]
    rows and [c] gates and both retained grids. *)
Definition stack_ready (N c : nat) (st : locals) : Prop :=
  exists zs g1 g2,
    z_stack st = Some zs /\
    layer_shape zs = (N, c) /\
    layers zs <> [] /\
    Forall (fun l => length l = N) (layers zs) /\
    lon_0 st = Some g1 /\
    lat_0 st = Some g2.

(** Every element repeated once, in place. *)
Definition twice {A : Type} (l : list A) : list A :=
  flat_map (fun r => [r; r]) l.

(** Lines 57-92 for one sweep: the field that the loop body hands to the
    stack, i.e. the reflectivity of the sweep after the optional filter,
    the reordering by azimuth and the doubling of a coarse sweep. *)
Definition sweep_field (argsort : list Q -> list nat) (radar : Radar)
    (rhv_filter : bool) (rhv_value : Q) (sweep : Z) : result marray :=
  s_idx <- py_getitem (sweep_start_ray_index radar) sweep ;;
  e_end <- py_getitem (sweep_end_ray_index radar) sweep ;;
  let e_idx := (e_end + 1)%Z in
  z <- get_field radar sweep "reflectivity" ;;
  z <- rhv_filter_step radar rhv_filter rhv_value sweep z ;;
  let lon := slice_rows (gate_longitude radar) s_idx e_idx in
  let lat := slice_rows (gate_latitude radar) s_idx e_idx in
  let az := py_slice (azimuth radar) s_idx e_idx in
  zll <- reorder argsort z lon lat az ;;
  Ok (upsample_if_coarse (snd (fst zll)) (fst (fst zll))).

(** The layers of a stack with every mask bit cleared. *)
Definition unmask_layers (ls : list (list (list cell)))
  : list (list (list cell)) :=
  map (map (map drop_mask)) ls.

(** The sample at row [i], column [j] of a list of rows. *)
Definition rows_at {A : Type} (rows : list (list A)) (i j : nat) : option A :=
  match nth_error rows i with
  | Some r => nth_error r j
  | None => None
  end.

(** What the loop guarantees of its locals once a stack exists: both
    retained grids exist, have the same number of rows (at least one), the
    layers of the stack have the number of rows that a sweep with as many
    rays as the retained grid has rows contributes, and the stack is not
    empty. *)
Definition locals_consistent (st : locals) : Prop :=
  forall zs, z_stack st = Some zs ->
    exists g1 g2,
      lon_0 st = Some g1 /\
      lat_0 st = Some g2 /\
      nrows g1 = nrows g2 /\
      (1 <= nrows g1)%nat /\
      fst (layer_shape zs) = normalized_rows (nrows g1) /\
      layers zs <> [] /\
      Forall (fun l => length l = fst (layer_shape zs)) (layers zs).

(** Every row of the array has [arr_ncols] entries, as in any numpy
    array. *)
Definition rectangular {A : Type} (a : ndarray2 A) : Prop :=
  Forall (fun r => length r = arr_ncols a) (arr_rows a).

(** The same radar object with another list of sweep numbers. *)
Definition with_sweep_number (radar : Radar) (sweeps : list Z) : Radar :=
  {| sweep_number := sweeps;
     sweep_start_ray_index := sweep_start_ray_index radar;
     sweep_end_ray_index := sweep_end_ray_index radar;
     get_field := get_field radar;
     gate_longitude := gate_longitude radar;
     gate_latitude := gate_latitude radar;
     azimuth := azimuth radar;
     time := time radar;
     time_units := time_units radar |}.


(** [l] is what the pass for [sweep] hands to the stack: the rows of the
    filtered reflectivity of the sweep in the order of the argsort of its
    azimuths (row [p] is the row of the ray at position [p] of the index
    array, the last row included), each row repeated when there are fewer
    than 720 of them; [l] carries these rows as they are, or with their mask
    bits cleared.  No row is replaced by another. *)
Definition stacked_field (argsort : list Q -> list nat) (radar : Radar)
    (rhv_filter : bool) (rhv_value : Q) (sweep : Z) (l : list (list cell))
  : Prop :=
  exists s e z zf zr,
    py_getitem (sweep_start_ray_index radar) sweep = Ok s /\
    py_getitem (sweep_end_ray_index radar) sweep = Ok e /\
    get_field radar sweep "reflectivity" = Ok z /\
    rhv_filter_step radar rhv_filter rhv_value sweep z = Ok zf /\
    take_rows zf (argsort (py_slice (azimuth radar) s (e + 1))) = Ok zr /\
    (forall p i,
        nth_error (argsort (py_slice (azimuth radar) s (e + 1))) p = Some i ->
        nth_error (arr_rows zr) p = nth_error (arr_rows zf) i) /\
    (l = (if (nrows zr <? 720)%nat then twice (arr_rows zr) else arr_rows zr)
     \/
     l = map (map drop_mask)
             (if (nrows zr <? 720)%nat then twice (arr_rows zr)
              else arr_rows zr)).

(* ===================================================================== *)
(** ** The error monad *)
(* ===================================================================== *)

Lemma bind_Ok {A B : Type} (c : result A) (k : A -> result B) (b : B) :
  bind c k = Ok b -> exists a, c = Ok a /\ k a = Ok b.
Proof.
  destruct c as [a | e]; simpl; intros H.
  - exists a. split; [reflexivity | exact H].
  - discriminate H.
Qed.

Ltac inv_bind H :=
  let a := fresh "a" in
  let Ha := fresh "Ha" in
  apply bind_Ok in H; destruct H as [a [Ha H]].

Tactic Notation "inv_bind_as" hyp(H) ident(a) ident(Ha) :=
  apply bind_Ok in H; destruct H as [a [Ha H]].

Lemma foldM_ext {A S : Type} (f g : S -> A -> result S) (l : list A) :
  (forall s a, In a l -> f s a = g s a) ->
  forall s, foldM f s l = foldM g s l.
Proof.
  induction l as [| a l IH]; intros Hfg s; simpl.
  - reflexivity.
  - rewrite (Hfg s a (or_introl eq_refl)).
    destruct (g s a) as [s' | e]; simpl; [| reflexivity].
    apply IH. intros s0 a0 Hin. apply Hfg. right. exact Hin.
Qed.

(* ===================================================================== *)
(** ** Zero sweeps *)
(* ===================================================================== *)

(** C5 (as amended): for every volume with zero sweeps the call fails, with
    Python's UnboundLocalError for the never assigned [z_stack], and no
    dictionary is returned. *)
Theorem zero_sweeps_unbound_z_stack
    (argsort : list Q -> list nat) (num2date : string -> list Q -> result (list Z))
    (radar : Radar) (rhv_filter : bool) (rhv_value : Q) (verbose : bool) :
  sweep_number radar = [] ->
  composite_reflectivity argsort num2date radar rhv_filter rhv_value verbose
  = Raise (UnboundLocalError "z_stack").
Proof.
  intros Hs. unfold composite_reflectivity. rewrite Hs. reflexivity.
Qed.

Lemma zero_sweeps_unbound_z_stack_witness :
  sweep_number empty_volume = [] /\
  run empty_volume true default_rhv_value
  = Raise (UnboundLocalError "z_stack").
Proof.
  split; [reflexivity |].
  apply (zero_sweeps_unbound_z_stack NpySort.argsort decoded empty_volume
           true default_rhv_value default_verbose).
  reflexivity.
Defined.

(** C5 as stated fails: on the volume without sweep the exception raised is
    not an EmptyVolumeError. *)
Lemma zero_sweeps_not_EmptyVolumeError :
  ~ (exists e, run empty_volume true default_rhv_value = Raise e /\
               exn_name e = "EmptyVolumeError").
Proof.
  intros [e [Hrun Hname]].
  vm_compute in Hrun. inversion Hrun; subst e. discriminate Hname.
Qed.

(* ===================================================================== *)
(** ** Mean time *)
(* ===================================================================== *)






(* ===================================================================== *)
(** ** The correlation field is read only when filtering *)
(* ===================================================================== *)

(** C10: with [rhv_filter] false the result depends on [get_field] only
    through the reflectivity field; a volume whose [get_field] has no
    correlation field returns what the volume with that field returns. *)
Theorem unfiltered_ignores_correlation
    (argsort : list Q -> list nat) (num2date : string -> list Q -> result (list Z))
    (radar : Radar) (g : Z -> string -> result marray)
    (rhv_value : Q) (verbose : bool) :
  (forall sweep, g sweep "reflectivity" = get_field radar sweep "reflectivity") ->
  composite_reflectivity argsort num2date (with_get_field radar g)
                         false rhv_value verbose
  = composite_reflectivity argsort num2date radar false rhv_value verbose.
Proof.
  intros Hg. unfold composite_reflectivity. simpl.
  rewrite (foldM_ext (sweep_body argsort (with_get_field radar g) false rhv_value)
                     (sweep_body argsort radar false rhv_value)).
  - destruct (foldM _ _ _); reflexivity.
  - intros st sweep _. unfold sweep_body, rhv_filter_step. simpl.
    rewrite Hg. reflexivity.
Qed.

Lemma unfiltered_ignores_correlation_witness :
  (forall sweep, get_field four_ray_volume sweep "reflectivity"
                 = get_field four_ray_volume_with_rho sweep "reflectivity") /\
  (forall sweep,
      get_field four_ray_volume sweep "cross_correlation_ratio"
      = Raise (KeyError "cross_correlation_ratio")) /\
  composite_reflectivity NpySort.argsort decoded
    (with_get_field four_ray_volume_with_rho (get_field four_ray_volume))
    false default_rhv_value default_verbose
  = composite_reflectivity NpySort.argsort decoded four_ray_volume_with_rho
      false default_rhv_value default_verbose.
Proof.
  split; [intros sweep; reflexivity |].
  split; [intros sweep; reflexivity |].
  apply (unfiltered_ignores_correlation NpySort.argsort decoded
           four_ray_volume_with_rho (get_field four_ray_volume)).
  intros sweep. reflexivity.
Defined.

(* ===================================================================== *)
(** ** Upsampling *)
(* ===================================================================== *)

Lemma cell_scale_one (c : cell) : cell_scale c 1 = c.
Proof.
  destruct c as [[num den] m]. unfold cell_scale, Qmult. simpl.
  rewrite Z.mul_1_r, Pos.mul_1_r. reflexivity.
Qed.

Lemma scale_row_one (r : list cell) :
  flat_map (fun x => map (fun y => cell_scale x y) [1]) r = r.
Proof.
  induction r as [| c r IH]; simpl.
  - reflexivity.
  - rewrite cell_scale_one. f_equal. exact IH.
Qed.

Lemma kron_ones_rows (rs : list (list cell)) :
  flat_map (fun ra =>
      map (fun rb => flat_map (fun x => map (fun y => cell_scale x y) rb) ra)
          [[1]; [1]]) rs
  = flat_map (fun r => [r; r]) rs.
Proof.
  induction rs as [| r rs IH].
  - reflexivity.
  - cbn [flat_map map]. rewrite scale_row_one. cbn [app].
    f_equal. f_equal. exact IH.
Qed.

(** [upsample] repeats every row once, in place. *)
Lemma upsample_rows (x : marray) :
  arr_rows (upsample x) = flat_map (fun r => [r; r]) (arr_rows x).
Proof.
  unfold upsample, kron, ones. cbn [arr_rows repeat].
  apply kron_ones_rows.
Qed.

Lemma upsample_ncols (x : marray) : arr_ncols (upsample x) = arr_ncols x.
Proof. unfold upsample, kron, ones. simpl. apply Nat.mul_1_r. Qed.

Lemma twice_length {A : Type} (l : list A) :
  length (twice l) = (2 * length l)%nat.
Proof.
  unfold twice. induction l as [| a l IH]; simpl in *; [reflexivity | lia].
Qed.

Lemma twice_nth_error {A : Type} (l : list A) (i : nat) :
  nth_error (twice l) (2 * i) = nth_error l i /\
  nth_error (twice l) (2 * i + 1) = nth_error l i.
Proof.
  unfold twice. revert i. induction l as [| a l IH]; intros i.
  - cbn [flat_map]. rewrite !nth_error_nil. split; reflexivity.
  - destruct i as [| i].
    + split; reflexivity.
    + replace (2 * S i)%nat with (S (S (2 * i))) by lia.
      replace (S (S (2 * i)) + 1)%nat with (S (S (2 * i + 1))) by lia.
      simpl. apply IH.
Qed.

Lemma upsample_nrows (x : marray) : nrows (upsample x) = (2 * nrows x)%nat.
Proof. unfold nrows. rewrite upsample_rows. apply twice_length. Qed.

(** C4: a sweep of [n] rays with [n < 720] comes out of the normalisation
    with exactly [2 n] rows and the same gates, rows [2 i] and [2 i + 1]
    being row [i] of the input; a sweep of 720 rays (or more) is returned
    as it is. *)
Theorem upsample_exactness (lon : ndarray2 Q) (z : marray) (n : nat) :
  nrows lon = n ->
  nrows z = n ->
  ((n < 720)%nat ->
   upsample_if_coarse lon z = upsample z /\
   nrows (upsample_if_coarse lon z) = (2 * n)%nat /\
   arr_ncols (upsample_if_coarse lon z) = arr_ncols z /\
   forall i, (i < n)%nat ->
     exists r,
       nth_error (arr_rows z) i = Some r /\
       nth_error (arr_rows (upsample_if_coarse lon z)) (2 * i) = Some r /\
       nth_error (arr_rows (upsample_if_coarse lon z)) (2 * i + 1) = Some r) /\
  ((720 <= n)%nat -> upsample_if_coarse lon z = z).
Proof.
  intros Hlon Hz. unfold upsample_if_coarse. rewrite Hlon. split.
  - intros Hn. apply Nat.ltb_lt in Hn. rewrite Hn.
    split; [reflexivity |].
    split; [rewrite upsample_nrows, Hz; reflexivity |].
    split; [apply upsample_ncols |].
    intros i Hi.
    destruct (nth_error (arr_rows z) i) as [r |] eqn:E.
    + exists r. split; [reflexivity |].
      rewrite upsample_rows.
      destruct (twice_nth_error (arr_rows z) i) as [H0 H1].
      unfold twice in H0, H1. rewrite H0, H1. split; exact E.
    + apply nth_error_None in E. unfold nrows in Hz. lia.
  - intros Hn. apply Nat.ltb_ge in Hn. rewrite Hn. reflexivity.
Qed.

Lemma upsample_exactness_witness :
  let lon := array_of [[1; 2]; [3; 4]]%Z 2 in
  let z := unmasked (array_of [[11; 12]; [21; 22]]%Z 2) in
  nrows lon = 2%nat /\ nrows z = 2%nat /\ (2 < 720)%nat /\
  arr_rows (upsample_if_coarse lon z)
  = arr_rows (unmasked (array_of [[11; 12]; [11; 12]; [21; 22]; [21; 22]]%Z 2)) /\
  nrows (upsample_if_coarse lon z) = 4%nat.
Proof.
  intros lon z.
  assert (Hlt : (2 < 720)%nat) by lia.
  split; [reflexivity |]. split; [reflexivity |]. split; [exact Hlt |].
  destruct (upsample_exactness lon z (n := 2) eq_refl eq_refl) as [Hup _].
  destruct (Hup Hlt) as [Heq [Hrows _]].
  split; [| exact Hrows].
  rewrite Heq, upsample_rows. reflexivity.
Defined.

(* ===================================================================== *)
(** ** The correlation filter *)
(* ===================================================================== *)

Lemma map2_length {A B C : Type} (f : A -> B -> C) (l : list A) (m : list B) :
  length l = length m -> length (map2 f l m) = length m.
Proof.
  revert m. induction l as [| a l IH]; intros [| b m] H; simpl in *;
    try discriminate; [reflexivity |].
  f_equal. apply IH. lia.
Qed.

Lemma nth_error_map2 {A B C : Type} (f : A -> B -> C) (l : list A)
    (m : list B) (i : nat) (a : A) (b : B) :
  nth_error l i = Some a ->
  nth_error m i = Some b ->
  nth_error (map2 f l m) i = Some (f a b).
Proof.
  revert m i. induction l as [| x l IH]; intros [| y m] [| i] Ha Hb;
    simpl in *; try discriminate.
  - inversion Ha; inversion Hb; reflexivity.
  - apply IH; assumption.
Qed.

Lemma Qltb_lt (x y : Q) : Qltb x y = true <-> x < y.
Proof.
  unfold Qltb. rewrite Qlt_alt.
  destruct (x ?= y); split; intros H; try reflexivity; discriminate H.
Qed.

Lemma shape_eqb_eq (s t : nat * nat) : shape_eqb s t = true <-> s = t.
Proof.
  destruct s as [a b], t as [c d]. unfold shape_eqb. simpl.
  rewrite andb_true_iff, !Nat.eqb_eq. split.
  - intros [-> ->]. reflexivity.
  - intros H. inversion H. split; reflexivity.
Qed.

Lemma shape_eqb_refl (s : nat * nat) : shape_eqb s s = true.
Proof. apply shape_eqb_eq. reflexivity. Qed.

(** What [masked_where] does to one sample. *)
Lemma masked_where_cell (rho z z' : marray) (v : Q) (i j : nat) (c r : cell) :
  masked_where (less_than rho v) z = Ok z' ->
  cell_at z i j = Some c ->
  cell_at rho i j = Some r ->
  cell_at z' i j
  = Some {| cdata := cdata c;
            cmask := (if cmask r then true else Qltb (cdata r) v) || cmask c |}.
Proof.
  unfold masked_where. intros H Hc Hr.
  destruct (shape_eqb _ _); [| discriminate H].
  inversion H; subst z'; clear H.
  unfold cell_at in *. cbn [arr_rows make_mask less_than].
  destruct (nth_error (arr_rows z) i) as [zr |] eqn:Ez; [| discriminate Hc].
  destruct (nth_error (arr_rows rho) i) as [rr |] eqn:Er; [| discriminate Hr].
  rewrite (@nth_error_map2 _ _ _ _ _ _ i
             (map (fun b => if bmask b then true else bdata b)
                  (map (fun c0 => {| bdata := Qltb (cdata c0) v;
                                     bmask := cmask c0 |}) rr)) zr).
  - rewrite (@nth_error_map2 _ _ _ _ _ _ j
               (if cmask r then true else Qltb (cdata r) v) c).
    + reflexivity.
    + rewrite !nth_error_map, Hr. reflexivity.
    + exact Hc.
  - rewrite !nth_error_map, Er. reflexivity.
  - exact Ez.
Qed.

(** C8 (as amended): without filtering the field is returned as it is; with
    filtering the filtered field has the shape and the data of the input
    and a sample is invalid exactly when it was invalid already, or its
    correlation sample is invalid (masked), or its correlation is strictly
    below the threshold. *)
Theorem rhv_filter_masks_low_or_invalid_correlation
    (radar : Radar) (rhv_value : Q) (sweep : Z) (z rho : marray) :
  rhv_filter_step radar false rhv_value sweep z = Ok z /\
  (get_field radar sweep "cross_correlation_ratio" = Ok rho ->
   shape rho = shape z ->
   exists z',
     rhv_filter_step radar true rhv_value sweep z = Ok z' /\
     shape z' = shape z /\
     forall i j c r,
       cell_at z i j = Some c ->
       cell_at rho i j = Some r ->
       exists c',
         cell_at z' i j = Some c' /\
         cdata c' = cdata c /\
         (cmask c' = true <->
          cmask c = true \/ cmask r = true \/ cdata r < rhv_value)).
Proof.
  split; [reflexivity |].
  intros Hrho Hshape. unfold rhv_filter_step. rewrite Hrho. cbn [bind].
  destruct (masked_where (less_than rho rhv_value) z) as [z' | e] eqn:E.
  - exists z'. split; [reflexivity |]. split.
    + unfold masked_where in E.
      destruct (shape_eqb _ _) eqn:Es; [| discriminate E].
      inversion E; subst z'; clear E.
      apply shape_eqb_eq in Es. unfold shape, nrows in *. cbn [arr_rows arr_ncols].
      injection Hshape as Hn Hc.
      apply (f_equal (fun k => (k, arr_ncols z))).
      apply map2_length. cbn [make_mask less_than arr_rows].
      rewrite !length_map. exact Hn.
    + intros i j c r Hc Hr.
      rewrite (masked_where_cell _ _ _ _ _ E Hc Hr).
      eexists. split; [reflexivity |]. cbn [cdata cmask]. split; [reflexivity |].
      rewrite orb_true_iff. destruct (cmask r).
      * split; intros _; [right; left; reflexivity | left; reflexivity].
      * rewrite Qltb_lt. split.
        -- intros [H | H]; [right; right; exact H | left; exact H].
        -- intros [H | [H | H]]; [right; exact H | discriminate H | left; exact H].
  - exfalso. unfold masked_where in E.
    replace (shape (make_mask (less_than rho rhv_value))) with (shape rho) in E.
    + rewrite Hshape, shape_eqb_refl in E. discriminate E.
    + unfold shape, nrows. cbn [make_mask less_than arr_rows arr_ncols].
      rewrite !length_map. reflexivity.
Qed.

Lemma rhv_filter_masks_low_or_invalid_correlation_witness :
  let z := unmasked (array_of [[11; 12]; [21; 22]; [31; 32]; [41; 42]]%Z 2) in
  let rho := unmasked (array_of [[1; 0]; [1; 1]; [0; 1]; [1; 1]]%Z 2) in
  get_field four_ray_volume_with_rho 0 "cross_correlation_ratio" = Ok rho /\
  shape rho = shape z /\
  exists z',
    rhv_filter_step four_ray_volume_with_rho true default_rhv_value 0 z = Ok z' /\
    map (map valid_value) (arr_rows z')
    = [[Some 11; None]; [Some 21; Some 22]; [None; Some 32]; [Some 41; Some 42]].
Proof.
  intros z rho.
  split; [reflexivity |]. split; [reflexivity |].
  destruct (rhv_filter_masks_low_or_invalid_correlation
              four_ray_volume_with_rho default_rhv_value 0 z rho) as [_ H].
  destruct (H eq_refl eq_refl) as [z' [Hz' _]].
  exists z'. split; [exact Hz' |].
  vm_compute in Hz'. inversion Hz'. reflexivity.
Defined.

(** C8 as stated fails: a valid sample whose correlation sample is masked
    is invalidated although the correlation, 0.99, is not below 0.95. *)
Lemma masked_correlation_invalidates_sample :
  exists z rho z',
    get_field masked_rho_volume 0 "reflectivity" = Ok z /\
    get_field masked_rho_volume 0 "cross_correlation_ratio" = Ok rho /\
    rhv_filter_step masked_rho_volume true default_rhv_value 0 z = Ok z' /\
    cell_at z 0 0 = Some {| cdata := 20; cmask := false |} /\
    cell_at rho 0 0 = Some {| cdata := 99 # 100; cmask := true |} /\
    ~ (99 # 100 < default_rhv_value) /\
    cell_at z' 0 0 = Some {| cdata := 20; cmask := true |}.
Proof.
  do 3 eexists.
  split; [reflexivity |]. split; [reflexivity |]. split; [reflexivity |].
  split; [reflexivity |]. split; [reflexivity |]. split; [| reflexivity].
  unfold default_rhv_value, Qlt. simpl. lia.
Qed.

(* ===================================================================== *)
(** ** Reordering by azimuth *)
(* ===================================================================== *)

Lemma nodupb_NoDup (l : list nat) : nodupb l = true -> NoDup l.
Proof.
  induction l as [| x l IH]; simpl; intros H.
  - constructor.
  - apply andb_true_iff in H. destruct H as [Hx Hl].
    constructor; [| apply IH; exact Hl].
    intros Hin. apply negb_true_iff in Hx.
    assert (existsb (Nat.eqb x) l = true) as Hex.
    { apply existsb_exists. exists x. split; [exact Hin | apply Nat.eqb_refl]. }
    rewrite Hex in Hx. discriminate Hx.
Qed.

Lemma sortedb_Sorted (l : list Q) : sortedb l = true -> Sorted Qle l.
Proof.
  induction l as [| x l IH]; intros H.
  - constructor.
  - destruct l as [| y l].
    + constructor; constructor.
    + cbn [sortedb] in H. apply andb_true_iff in H. destruct H as [Hxy Hl].
      constructor; [apply IH; exact Hl |].
      constructor. apply Qle_bool_iff. exact Hxy.
Qed.

Lemma is_argsortb_sound (a : list Q) (ids : list nat) :
  is_argsortb a ids = true -> is_argsort a ids.
Proof.
  unfold is_argsortb, is_argsort. intros H.
  repeat (apply andb_true_iff in H; destruct H as [H ?]).
  rename H into Hlen, H0 into Hsorted, H1 into Hnodup, H2 into Hbound.
  split; [| apply sortedb_Sorted; exact Hsorted].
  apply Nat.eqb_eq in Hlen.
  apply NoDup_Permutation_bis.
  - apply nodupb_NoDup. exact Hnodup.
  - rewrite length_seq, Hlen. apply Nat.le_refl.
  - intros i Hi. apply in_seq.
    rewrite forallb_forall in Hbound. specialize (Hbound i Hi).
    apply Nat.ltb_lt in Hbound. lia.
Qed.

Lemma is_argsort_bound (a : list Q) (ids : list nat) (i : nat) :
  is_argsort a ids -> In i ids -> (i < length a)%nat.
Proof.
  intros [Hperm _] Hin.
  apply (Permutation_in _ Hperm) in Hin. apply in_seq in Hin. lia.
Qed.

Lemma is_argsort_length (a : list Q) (ids : list nat) :
  is_argsort a ids -> length ids = length a.
Proof.
  intros [Hperm _]. rewrite (Permutation_length Hperm). apply length_seq.
Qed.

Lemma is_argsort_NoDup (a : list Q) (ids : list nat) :
  is_argsort a ids -> NoDup ids.
Proof.
  intros [Hperm _].
  apply (Permutation_NoDup (Permutation_sym Hperm)). apply seq_NoDup.
Qed.

Lemma take_spec {A : Type} (l : list A) (ids : list nat) (rs : list A) :
  take l ids = Ok rs ->
  length rs = length ids /\
  forall p i, nth_error ids p = Some i -> nth_error rs p = nth_error l i.
Proof.
  unfold take. revert rs. induction ids as [| i ids IH]; intros rs H.
  - inversion H. split; [reflexivity |].
    intros p i Hp. rewrite nth_error_nil in Hp. discriminate Hp.
  - cbn [mapM] in H. inv_bind H. inv_bind H.
    inversion H; subst rs; clear H.
    destruct (IH _ Ha0) as [Hlen Hnth].
    split; [simpl; rewrite Hlen; reflexivity |].
    intros [| p] k Hp; simpl in *.
    + inversion Hp; subst k.
      destruct (nth_error l i); [inversion Ha; reflexivity | discriminate Ha].
    + apply Hnth. exact Hp.
Qed.

Lemma take_ok {A : Type} (l : list A) (ids : list nat) :
  (forall i, In i ids -> (i < length l)%nat) ->
  exists rs, take l ids = Ok rs.
Proof.
  unfold take. induction ids as [| i ids IH]; intros H.
  - exists []. reflexivity.
  - destruct IH as [rs Hrs]; [intros k Hk; apply H; right; exact Hk |].
    destruct (nth_error l i) as [r |] eqn:E.
    + exists (r :: rs). cbn [mapM]. rewrite E. cbn [bind].
      rewrite Hrs. reflexivity.
    + apply nth_error_None in E. specialize (H i (or_introl eq_refl)). lia.
Qed.

Lemma take_rows_spec {A : Type} (a b : ndarray2 A) (ids : list nat) :
  take_rows a ids = Ok b ->
  nrows b = length ids /\
  arr_ncols b = arr_ncols a /\
  forall p i, nth_error ids p = Some i ->
              nth_error (arr_rows b) p = nth_error (arr_rows a) i.
Proof.
  unfold take_rows. intros H. inv_bind H. inversion H; subst b; clear H.
  destruct (take_spec _ _ Ha) as [Hlen Hnth].
  split; [exact Hlen |]. split; [reflexivity | exact Hnth].
Qed.

Lemma take_rows_ok {A : Type} (a : ndarray2 A) (ids : list nat) :
  (forall i, In i ids -> (i < nrows a)%nat) ->
  exists b, take_rows a ids = Ok b.
Proof.
  intros H. destruct (take_ok (arr_rows a) ids H) as [rs Hrs].
  unfold take_rows. rewrite Hrs. eexists. reflexivity.
Qed.

(** The reordering succeeds on arrays with a row per azimuth and moves
    the rows of the three arrays alike. *)
Lemma reorder_rows
    (argsort : list Q -> list nat)
    (z : marray) (lon lat : ndarray2 Q) (az : list Q) :
  is_argsort az (argsort az) ->
  (length az <= nrows z)%nat ->
  (length az <= nrows lon)%nat ->
  (length az <= nrows lat)%nat ->
  exists z' lon' lat',
    reorder argsort z lon lat az = Ok (z', lon', lat') /\
    (nrows z' = length az /\ arr_ncols z' = arr_ncols z) /\
    (nrows lon' = length az /\ arr_ncols lon' = arr_ncols lon) /\
    (nrows lat' = length az /\ arr_ncols lat' = arr_ncols lat) /\
    forall p i,
      nth_error (argsort az) p = Some i ->
      (i < length az)%nat /\
      nth_error (arr_rows z') p = nth_error (arr_rows z) i /\
      nth_error (arr_rows lon') p = nth_error (arr_rows lon) i /\
      nth_error (arr_rows lat') p = nth_error (arr_rows lat) i.
Proof.
  intros Hsort Hz Hlon Hlat.
  assert (Hb : forall i, In i (argsort az) -> (i < length az)%nat)
    by (intros i; apply is_argsort_bound; exact Hsort).
  destruct (take_rows_ok z (argsort az)) as [z' Ez];
    [intros i Hi; specialize (Hb i Hi); lia |].
  destruct (take_rows_ok lon (argsort az)) as [lon' Elon];
    [intros i Hi; specialize (Hb i Hi); lia |].
  destruct (take_rows_ok lat (argsort az)) as [lat' Elat];
    [intros i Hi; specialize (Hb i Hi); lia |].
  exists z', lon', lat'.
  unfold reorder. rewrite Ez, Elon, Elat. cbn [bind].
  destruct (take_rows_spec _ _ Ez) as [Hnz [Hcz Hrz]].
  destruct (take_rows_spec _ _ Elon) as [Hnlon [Hclon Hrlon]].
  destruct (take_rows_spec _ _ Elat) as [Hnlat [Hclat Hrlat]].
  pose proof (is_argsort_length Hsort) as Hlen.
  split; [reflexivity |].
  split; [split; [congruence | exact Hcz] |].
  split; [split; [congruence | exact Hclon] |].
  split; [split; [congruence | exact Hclat] |].
  intros p i Hp.
  split; [apply Hb; eapply nth_error_In; exact Hp |].
  split; [apply Hrz; exact Hp |].
  split; [apply Hrlon; exact Hp | apply Hrlat; exact Hp].
Qed.

(* ===================================================================== *)
(** ** The retained grid and the wrap closure *)
(* ===================================================================== *)

Lemma foldM_invariant {A S : Type} (P : S -> Prop) (f : S -> A -> result S)
    (l : list A) :
  (forall s a s', P s -> f s a = Ok s' -> P s') ->
  forall s s', P s -> foldM f s l = Ok s' -> P s'.
Proof.
  intros Hstep. induction l as [| a l IH]; intros s s' Hs H.
  - inversion H; subst s'. exact Hs.
  - cbn [foldM] in H. inv_bind H. eapply IH; [| exact H].
    eapply Hstep; [exact Hs | exact Ha].
Qed.

Lemma foldM_related {A S : Type} (R : S -> S -> Prop)
    (f g : S -> A -> result S) (l : list A) :
  (forall s t a s' t', R s t -> f s a = Ok s' -> g t a = Ok t' -> R s' t') ->
  forall s t s' t',
    R s t -> foldM f s l = Ok s' -> foldM g t l = Ok t' -> R s' t'.
Proof.
  intros Hstep. induction l as [| a l IH]; intros s t s' t' HR Hf Hg.
  - inversion Hf; inversion Hg; subst. exact HR.
  - cbn [foldM] in Hf, Hg. inv_bind Hf. inv_bind Hg.
    eapply IH; [| exact Hf | exact Hg].
    eapply Hstep; [exact HR | exact Ha | exact Ha0].
Qed.

Lemma wrap_rows_spec {A : Type} (l : list A) (r0 : A) :
  nth_error l 0 = Some r0 ->
  length (removelast l ++ [r0]) = length l /\
  nth_error (removelast l ++ [r0]) (length (removelast l ++ [r0]) - 1)
  = Some r0 /\
  nth_error (removelast l ++ [r0]) 0 = Some r0 /\
  forall i, (i + 1 < length l)%nat ->
            nth_error (removelast l ++ [r0]) i = nth_error l i.
Proof.
  intros H0.
  assert (Hl : (1 <= length l)%nat).
  { destruct l; [discriminate H0 | simpl; lia]. }
  rewrite removelast_firstn_len.
  assert (Hk : length (firstn (pred (length l)) l) = pred (length l))
    by (rewrite length_firstn; lia).
  assert (Hlast : forall k, k = pred (length l) ->
            nth_error (firstn (pred (length l)) l ++ [r0]) k = Some r0).
  { intros k ->. rewrite nth_error_app2 by lia.
    rewrite Hk, Nat.sub_diag. reflexivity. }
  assert (Hinit : forall i, (i + 1 < length l)%nat ->
            nth_error (firstn (pred (length l)) l ++ [r0]) i = nth_error l i).
  { intros i Hi. rewrite nth_error_app1 by lia.
    rewrite nth_error_firstn.
    replace (i <? pred (length l))%nat with true; [reflexivity |].
    symmetry. apply Nat.ltb_lt. lia. }
  rewrite length_app, Hk. cbn [length].
  split; [lia |].
  split; [apply Hlast; lia |].
  split; [| exact Hinit].
  destruct (Nat.eq_dec (length l) 1) as [H1 | H1].
  - apply Hlast. lia.
  - rewrite Hinit by lia. exact H0.
Qed.

Lemma close_wrap_spec {A : Type} (a b : ndarray2 A) :
  close_wrap a = Ok b ->
  nrows b = nrows a /\
  (1 <= nrows a)%nat /\
  arr_ncols b = arr_ncols a /\
  nth_error (arr_rows b) (nrows b - 1) = nth_error (arr_rows a) 0 /\
  nth_error (arr_rows b) 0 = nth_error (arr_rows a) 0 /\
  forall i, (i + 1 < nrows a)%nat ->
            nth_error (arr_rows b) i = nth_error (arr_rows a) i.
Proof.
  unfold close_wrap, nrows. intros H.
  destruct (nth_error (arr_rows a) 0) as [r0 |] eqn:E0.
  - destruct (wrap_rows_spec (arr_rows a) E0) as [L1 [L2 [L3 L4]]].
    destruct (arr_rows a) as [| r rest] eqn:E; [discriminate H |].
    inversion E0; subst r.
    inversion H; subst b; clear H.
    split; [exact L1 |]. split; [simpl; lia |]. split; [reflexivity |].
    split; [exact L2 |]. split; [exact L3 | exact L4].
  - destruct (arr_rows a); [discriminate H | discriminate E0].
Qed.

Lemma reorder_Ok (argsort : list Q -> list nat) (z : marray)
    (lon lat : ndarray2 Q) (az : list Q)
    (zll : marray * ndarray2 Q * ndarray2 Q) :
  reorder argsort z lon lat az = Ok zll ->
  take_rows z (argsort az) = Ok (fst (fst zll)) /\
  take_rows lon (argsort az) = Ok (snd (fst zll)) /\
  take_rows lat (argsort az) = Ok (snd zll).
Proof.
  unfold reorder. intros H. inv_bind H. inv_bind H. inv_bind H.
  inversion H; subst zll. cbn [fst snd]. repeat split; assumption.
Qed.

Lemma retained_wrap_closed (argsort : list Q -> list nat) (radar : Radar)
    (grid g0 : ndarray2 Q) :
  retained_from_sweep_0 argsort radar grid g0 -> wrap_closed g0.
Proof.
  intros [s [e [sorted [_ [_ [_ [Hw _]]]]]]].
  destruct (close_wrap_spec _ Hw) as [Hn [H1 [_ [Hlast [Hfirst _]]]]].
  split; [lia | congruence].
Qed.

(** The loop keeps in [lon_0] and [lat_0] the grids retained at sweep 0. *)
Lemma sweep_body_retains (argsort : list Q -> list nat) (radar : Radar)
    (rhv_filter : bool) (rhv_value : Q) (st st' : locals) (sweep : Z) :
  (forall g, lon_0 st = Some g ->
             retained_from_sweep_0 argsort radar (gate_longitude radar) g) /\
  (forall g, lat_0 st = Some g ->
             retained_from_sweep_0 argsort radar (gate_latitude radar) g) ->
  sweep_body argsort radar rhv_filter rhv_value st sweep = Ok st' ->
  (forall g, lon_0 st' = Some g ->
             retained_from_sweep_0 argsort radar (gate_longitude radar) g) /\
  (forall g, lat_0 st' = Some g ->
             retained_from_sweep_0 argsort radar (gate_latitude radar) g).
Proof.
  intros [Hlon Hlat] H. unfold sweep_body in H.
  inv_bind_as H s Hs. inv_bind_as H e He.
  inv_bind_as H z Hz. inv_bind_as H zf Hzf.
  inv_bind_as H zll Hre. inv_bind_as H geo Hgeo. inv_bind_as H stack Hstack.
  inversion H; subst st'; clear H. cbn [lon_0 lat_0].
  destruct (reorder_Ok _ _ _ _ _ Hre) as [_ [Hrlon Hrlat]].
  destruct (sweep =? 0)%Z eqn:E0.
  - apply Z.eqb_eq in E0. subst sweep.
    inv_bind_as Hgeo lon0 Hlon0. inv_bind_as Hgeo lat0 Hlat0.
    inversion Hgeo; subst geo; clear Hgeo.
    cbn [fst snd]. split; intros g Hg; inversion Hg; subst g.
    + exists s, e, (snd (fst zll)).
      repeat (split; [assumption |]).
      intros i Hi. apply (close_wrap_spec _ Hlon0). exact Hi.
    + exists s, e, (snd zll).
      repeat (split; [assumption |]).
      intros i Hi. apply (close_wrap_spec _ Hlat0). exact Hi.
  - inversion Hgeo; subst geo. cbn [fst snd]. split; assumption.
Qed.

(** The stack does not depend on the coordinate grids. *)
Lemma sweep_body_stack_ignores_grids (argsort : list Q -> list nat)
    (radar : Radar) (lon' lat' : ndarray2 Q)
    (rhv_filter : bool) (rhv_value : Q) (st st' st1 st1' : locals)
    (sweep : Z) :
  z_stack st = z_stack st' ->
  sweep_body argsort radar rhv_filter rhv_value st sweep = Ok st1 ->
  sweep_body argsort (with_geolocation radar lon' lat') rhv_filter rhv_value
             st' sweep = Ok st1' ->
  z_stack st1 = z_stack st1'.
Proof.
  intros HR H H'. unfold sweep_body in H, H'.
  unfold rhv_filter_step in H, H'.
  cbn [with_geolocation sweep_start_ray_index sweep_end_ray_index get_field
       gate_longitude gate_latitude azimuth] in H'.
  inv_bind_as H s Hs. inv_bind_as H' s' Hs'.
  rewrite Hs in Hs'. inversion Hs'; subst s'.
  inv_bind_as H e He. inv_bind_as H' e' He'.
  rewrite He in He'. inversion He'; subst e'.
  inv_bind_as H z Hz. inv_bind_as H' z' Hz'.
  rewrite Hz in Hz'. inversion Hz'; subst z'.
  inv_bind_as H zf Hzf. inv_bind_as H' zf' Hzf'.
  rewrite Hzf in Hzf'. inversion Hzf'; subst zf'.
  inv_bind_as H zll Hre. inv_bind_as H' zll' Hre'.
  destruct (reorder_Ok _ _ _ _ _ Hre) as [Hrz [Hrlon _]].
  destruct (reorder_Ok _ _ _ _ _ Hre') as [Hrz' [Hrlon' _]].
  rewrite Hrz in Hrz'. inversion Hrz' as [Hzeq].
  destruct (take_rows_spec _ _ Hrlon) as [Hn _].
  destruct (take_rows_spec _ _ Hrlon') as [Hn' _].
  inv_bind_as H geo Hgeo. inv_bind_as H' geo' Hgeo'.
  inv_bind_as H stack Hstack. inv_bind_as H' stack' Hstack'.
  inversion H; subst st1. inversion H'; subst st1'. cbn [z_stack].
  unfold upsample_if_coarse in *. rewrite Hn in Hstack. rewrite Hn' in Hstack'.
  rewrite <- Hzeq, <- HR in Hstack'. rewrite Hstack in Hstack'.
  inversion Hstack'. reflexivity.
Qed.

(** Everything a successful pass of the loop body has computed. *)
Lemma sweep_body_inv (argsort : list Q -> list nat) (radar : Radar)
    (rhv_filter : bool) (rhv_value : Q) (st st' : locals) (sweep : Z) :
  sweep_body argsort radar rhv_filter rhv_value st sweep = Ok st' ->
  exists s e z zf z' lon' lat',
    py_getitem (sweep_start_ray_index radar) sweep = Ok s /\
    py_getitem (sweep_end_ray_index radar) sweep = Ok e /\
    get_field radar sweep "reflectivity" = Ok z /\
    rhv_filter_step radar rhv_filter rhv_value sweep z = Ok zf /\
    take_rows zf (argsort (py_slice (azimuth radar) s (e + 1))) = Ok z' /\
    take_rows (slice_rows (gate_longitude radar) s (e + 1))
              (argsort (py_slice (azimuth radar) s (e + 1))) = Ok lon' /\
    take_rows (slice_rows (gate_latitude radar) s (e + 1))
              (argsort (py_slice (azimuth radar) s (e + 1))) = Ok lat' /\
    sweep_field argsort radar rhv_filter rhv_value sweep
    = Ok (upsample_if_coarse lon' z') /\
    ((sweep = 0%Z /\
      exists g1 g2,
        close_wrap lon' = Ok g1 /\ close_wrap lat' = Ok g2 /\
        lon_0 st' = Some g1 /\ lat_0 st' = Some g2 /\
        z_stack st' = Some (newaxis (upsample_if_coarse lon' z')))
     \/
     (sweep <> 0%Z /\
      lon_0 st' = lon_0 st /\ lat_0 st' = lat_0 st /\
      exists zs zs',
        z_stack st = Some zs /\
        concatenate zs (newaxis (upsample_if_coarse lon' z')) = Ok zs' /\
        z_stack st' = Some zs')).
Proof.
  intros H. unfold sweep_body in H.
  inv_bind_as H s Hs. inv_bind_as H e He.
  inv_bind_as H z Hz. inv_bind_as H zf Hzf.
  inv_bind_as H zll Hre. inv_bind_as H geo Hgeo. inv_bind_as H stack Hstack.
  inversion H; subst st'; clear H. cbn [lon_0 lat_0 z_stack].
  destruct (reorder_Ok _ _ _ _ _ Hre) as [Hrz [Hrlon Hrlat]].
  exists s, e, z, zf, (fst (fst zll)), (snd (fst zll)), (snd zll).
  repeat (split; [assumption |]).
  split.
  - unfold sweep_field. rewrite Hs, He, Hz. cbn [bind].
    rewrite Hzf. cbn [bind]. rewrite Hre. reflexivity.
  - destruct (sweep =? 0)%Z eqn:E0.
    + left. apply Z.eqb_eq in E0. split; [exact E0 |].
      inv_bind_as Hgeo g1 Hg1. inv_bind_as Hgeo g2 Hg2.
      inversion Hgeo; subst geo; clear Hgeo. inversion Hstack; subst stack.
      exists g1, g2. cbn [fst snd]. repeat split; assumption.
    + right. apply Z.eqb_neq in E0. split; [exact E0 |].
      inversion Hgeo; subst geo; clear Hgeo. cbn [fst snd].
      split; [reflexivity |]. split; [reflexivity |].
      inv_bind_as Hstack zs Hzs.
      exists zs, stack.
      split; [| split; [exact Hstack | reflexivity]].
      destruct (z_stack st); [inversion Hzs; reflexivity | discriminate Hzs].
Qed.

Lemma concatenate_inv (a b c : ndarray3 cell) :
  concatenate a b = Ok c ->
  layer_shape a = layer_shape b /\
  layer_shape c = layer_shape a /\
  layers c = unmask_layers (layers a ++ layers b).
Proof.
  unfold concatenate. destruct (shape_eqb _ _) eqn:E; intros H;
    [| discriminate H].
  apply shape_eqb_eq in E. inversion H; subst c; clear H.
  split; [exact E |]. split; reflexivity.
Qed.

Lemma foldM_invariant_in {A S : Type} (P : S -> Prop)
    (f : S -> A -> result S) (l : list A) :
  (forall s a s', In a l -> P s -> f s a = Ok s' -> P s') ->
  forall s s', P s -> foldM f s l = Ok s' -> P s'.
Proof.
  induction l as [| a l IH]; intros Hstep s s' Hs H.
  - inversion H; subst s'. exact Hs.
  - cbn [foldM] in H. inv_bind_as H s1 H1.
    apply (IH (fun s0 a0 s0' Hin => Hstep s0 a0 s0' (or_intror Hin)) s1 s');
      [| exact H].
    apply (Hstep s a s1 (or_introl eq_refl) Hs H1).
Qed.

(** Every layer of the stack is the reordered field of a sweep, with all
    its rows. *)
Lemma sweep_body_stacks_fields (argsort : list Q -> list nat) (radar : Radar)
    (rhv_filter : bool) (rhv_value : Q) (sweeps : list Z)
    (st st' : locals) (sweep : Z) :
  In sweep sweeps ->
  (forall zs, z_stack st = Some zs ->
     Forall (fun l => exists sw, In sw sweeps /\
                        stacked_field argsort radar rhv_filter rhv_value sw l)
            (layers zs)) ->
  sweep_body argsort radar rhv_filter rhv_value st sweep = Ok st' ->
  forall zs, z_stack st' = Some zs ->
    Forall (fun l => exists sw, In sw sweeps /\
                       stacked_field argsort radar rhv_filter rhv_value sw l)
           (layers zs).
Proof.
  intros Hin Hst H.
  destruct (sweep_body_inv _ _ _ _ _ _ H)
    as [s [e [z [zf [z' [lon' [lat' [Hs [He [Hz [Hzf [Hz' [Hlon' [_ [_ Hcase]]]]]]]]]]]]]]].
  destruct (take_rows_spec _ _ Hz') as [Hnz [_ Hrows]].
  destruct (take_rows_spec _ _ Hlon') as [Hnlon _].
  assert (Hlayer : arr_rows (upsample_if_coarse lon' z')
                   = if (nrows z' <? 720)%nat then twice (arr_rows z')
                     else arr_rows z').
  { unfold upsample_if_coarse. rewrite Hnlon, <- Hnz.
    destruct (nrows z' <? 720)%nat; [apply upsample_rows | reflexivity]. }
  assert (Hnew : forall l,
             l = arr_rows (upsample_if_coarse lon' z') \/
             l = map (map drop_mask) (arr_rows (upsample_if_coarse lon' z')) ->
             exists sw, In sw sweeps /\
               stacked_field argsort radar rhv_filter rhv_value sw l).
  { intros l Hl. exists sweep. split; [exact Hin |].
    exists s, e, z, zf, z'. rewrite <- Hlayer.
    repeat (split; [assumption |]). exact Hl. }
  destruct Hcase as [[_ [g1 [g2 [_ [_ [_ [_ Hstack]]]]]]]
                    | [_ [_ [_ [zs0 [zs1 [Hzs0 [Hcat Hstack]]]]]]]];
    intros zs Hzs; rewrite Hstack in Hzs; inversion Hzs; subst zs.
  - cbn [newaxis layers]. constructor; [| constructor].
    apply Hnew. left. reflexivity.
  - destruct (concatenate_inv _ _ Hcat) as [_ [_ Hl]]. rewrite Hl.
    unfold unmask_layers. apply Forall_map. apply Forall_app. split.
    + eapply Forall_impl; [| exact (Hst _ Hzs0)].
      intros l [sw [Hsw Hf]]. exists sw. split; [exact Hsw |].
      destruct Hf as [s' [e' [z0 [zf0 [zr [A1 [A2 [A3 [A4 [A5 [A6 A7]]]]]]]]]]].
      exists s', e', z0, zf0, zr. repeat (split; [assumption |]).
      right. destruct A7 as [-> | ->]; [reflexivity |].
      rewrite map_map. apply map_ext. intros r.
      rewrite map_map. apply map_ext. intros c. reflexivity.
    + cbn [newaxis layers]. constructor; [| constructor].
      apply Hnew. right. reflexivity.
Qed.

(** C7: in the returned longitude and latitude grids the last azimuth row
    equals the first; each returned grid is the reordered grid of sweep 0
    with this overwrite of its last row as the only change; the composite
    does not depend on the coordinate grids; and the composite is the
    maximum over a stack each layer of which is the reordered reflectivity
    of a sweep of the volume with every row in place, its last row being
    the row of the ray that the argsort puts last and not a copy of the
    first row: no array of the reduction carries the overwrite. *)
Theorem wrap_closure
    (argsort : list Q -> list nat) (num2date : string -> list Q -> result (list Z))
    (radar : Radar) (rhv_filter : bool) (rhv_value : Q) (verbose : bool)
    (d : comp_dict) :
  composite_reflectivity argsort num2date radar rhv_filter rhv_value verbose
  = Ok d ->
  wrap_closed (data (longitude d)) /\
  wrap_closed (data (latitude d)) /\
  retained_from_sweep_0 argsort radar (gate_longitude radar)
                        (data (longitude d)) /\
  retained_from_sweep_0 argsort radar (gate_latitude radar)
                        (data (latitude d)) /\
  (exists zs,
      max_axis0 zs = Ok (data (composite_reflectivity_entry d)) /\
      Forall (fun l => exists sweep,
                  In sweep (sweep_number radar) /\
                  stacked_field argsort radar rhv_filter rhv_value sweep l)
             (layers zs)) /\
  forall lon' lat' d',
    composite_reflectivity argsort num2date (with_geolocation radar lon' lat')
                           rhv_filter rhv_value verbose = Ok d' ->
    data (composite_reflectivity_entry d')
    = data (composite_reflectivity_entry d).
Proof.
  intros H. unfold composite_reflectivity in H. inv_bind_as H st Hloop.
  assert (Hret :
    (forall g, lon_0 st = Some g ->
               retained_from_sweep_0 argsort radar (gate_longitude radar) g) /\
    (forall g, lat_0 st = Some g ->
               retained_from_sweep_0 argsort radar (gate_latitude radar) g)).
  { eapply (foldM_invariant
              (fun st =>
                 (forall g, lon_0 st = Some g ->
                    retained_from_sweep_0 argsort radar (gate_longitude radar) g) /\
                 (forall g, lat_0 st = Some g ->
                    retained_from_sweep_0 argsort radar (gate_latitude radar) g)));
      [| | exact Hloop].
    - intros s a s' Hs Hstep. eapply sweep_body_retains; eassumption.
    - split; intros g Hg; discriminate Hg. }
  destruct Hret as [Hlon Hlat].
  unfold finish in H.
  inv_bind_as H zs Hzs. inv_bind_as H compz Hmax. inv_bind_as H stamps Hstamps.
  inv_bind_as H lon0 Hlon0. inv_bind_as H lat0 Hlat0.
  inversion H; subst d; clear H.
  cbn [longitude latitude data composite_reflectivity_entry].
  assert (Hl0 : lon_0 st = Some lon0)
    by (destruct (lon_0 st); [inversion Hlon0; reflexivity | discriminate Hlon0]).
  assert (Hl1 : lat_0 st = Some lat0)
    by (destruct (lat_0 st); [inversion Hlat0; reflexivity | discriminate Hlat0]).
  specialize (Hlon _ Hl0). specialize (Hlat _ Hl1).
  split; [eapply retained_wrap_closed; exact Hlon |].
  split; [eapply retained_wrap_closed; exact Hlat |].
  split; [exact Hlon |]. split; [exact Hlat |].
  split.
  { exists zs. split; [exact Hmax |].
    assert (Hz : z_stack st = Some zs)
      by (destruct (z_stack st); [inversion Hzs; reflexivity | discriminate Hzs]).
    assert (Hinv : forall zs0, z_stack st = Some zs0 ->
              Forall (fun l => exists sweep,
                        In sweep (sweep_number radar) /\
                        stacked_field argsort radar rhv_filter rhv_value
                                      sweep l)
                     (layers zs0)).
    { eapply (foldM_invariant_in
                (fun st => forall zs0, z_stack st = Some zs0 ->
                   Forall (fun l => exists sweep,
                             In sweep (sweep_number radar) /\
                             stacked_field argsort radar rhv_filter rhv_value
                                           sweep l)
                          (layers zs0)));
        [| | exact Hloop].
      - intros s a s' Hin Hs Hstep.
        eapply sweep_body_stacks_fields; eassumption.
      - intros zs0 Hzs0. discriminate Hzs0. }
    exact (Hinv zs Hz). }
  intros lon' lat' d' H'. unfold composite_reflectivity in H'.
  inv_bind_as H' st' Hloop'.
  cbn [with_geolocation sweep_number] in Hloop'.
  assert (Hstack : z_stack st = z_stack st').
  { eapply (foldM_related (fun s t => z_stack s = z_stack t));
      [| | exact Hloop | exact Hloop'].
    - intros s t sw s' t' HR Hf Hg.
      eapply sweep_body_stack_ignores_grids; eassumption.
    - reflexivity. }
  unfold finish in H'.
  inv_bind_as H' zs' Hzs'. inv_bind_as H' compz' Hmax'. inv_bind_as H' stamps' Hstamps'.
  inv_bind_as H' lon0' Hlon0'. inv_bind_as H' lat0' Hlat0'.
  inversion H'; subst d'. cbn [composite_reflectivity_entry data].
  rewrite <- Hstack, Hzs in Hzs'. inversion Hzs'; subst zs'.
  rewrite Hmax in Hmax'. inversion Hmax'. reflexivity.
Qed.

Lemma wrap_closure_witness :
  exists d,
    run four_ray_volume false default_rhv_value = Ok d /\
    data (longitude d) = array_of [[1; 2]; [7; 8]; [5; 6]; [1; 2]]%Z 2 /\
    wrap_closed (data (longitude d)) /\
    wrap_closed (data (latitude d)) /\
    map (map valid_value)
        (arr_rows (data (composite_reflectivity_entry d)))
    = [[Some 11; Some 12]; [Some 11; Some 12];
       [Some 41; Some 42]; [Some 41; Some 42];
       [Some 31; Some 32]; [Some 31; Some 32];
       [Some 21; Some 22]; [Some 21; Some 22]].
Proof.
  destruct (run four_ray_volume false default_rhv_value) as [d | e] eqn:E;
    [| vm_compute in E; discriminate E].
  exists d. split; [reflexivity |].
  destruct (wrap_closure NpySort.argsort decoded four_ray_volume false
              default_rhv_value default_verbose E) as [Hlon [Hlat _]].
  split; [| split; [exact Hlon | split; [exact Hlat |]]].
  - vm_compute in E. inversion E. reflexivity.
  - vm_compute in E. inversion E. reflexivity.
Defined.

(* ===================================================================== *)
(** ** Ray counts *)
(* ===================================================================== *)

Lemma foldM_ok {A S : Type} (P : S -> Prop) (f : S -> A -> result S)
    (l : list A) :
  (forall s a, In a l -> P s -> exists s', f s a = Ok s' /\ P s') ->
  forall s, P s -> exists s', foldM f s l = Ok s' /\ P s'.
Proof.
  induction l as [| a l IH]; intros Hstep s Hs.
  - exists s. split; [reflexivity | exact Hs].
  - destruct (Hstep s a (or_introl eq_refl) Hs) as [s1 [H1 P1]].
    destruct (IH (fun s0 a0 Hin => Hstep s0 a0 (or_intror Hin)) s1 P1)
      as [s' [H' P']].
    exists s'. split; [| exact P'].
    cbn [foldM]. rewrite H1. exact H'.
Qed.

Lemma close_wrap_ok {A : Type} (a : ndarray2 A) :
  (1 <= nrows a)%nat -> exists b, close_wrap a = Ok b.
Proof.
  unfold close_wrap, nrows. destruct (arr_rows a) as [| r0 rest]; simpl.
  - lia.
  - intros _. eexists. reflexivity.
Qed.

Lemma upsample_if_coarse_shape (lon : ndarray2 Q) (z : marray) :
  nrows lon = nrows z ->
  shape (upsample_if_coarse lon z) = (normalized_rows (nrows z), arr_ncols z).
Proof.
  intros H. unfold upsample_if_coarse, normalized_rows, shape. rewrite H.
  destruct (nrows z <? 720)%nat.
  - rewrite upsample_nrows, upsample_ncols. reflexivity.
  - reflexivity.
Qed.

Lemma fold_left_map2_length {A : Type}
    (g : A -> A -> A) (N : nat) (ls : list (list (list A)))
    (l0 : list (list A)) :
  length l0 = N ->
  Forall (fun l => length l = N) ls ->
  length (fold_left (map2 (map2 g)) ls l0) = N.
Proof.
  intros H0 Hls. revert l0 H0.
  induction Hls as [| l ls Hl _ IH]; intros l0 H0; cbn [fold_left].
  - exact H0.
  - apply IH. rewrite map2_length; [exact Hl | congruence].
Qed.

(** The loop body processes an accepted sweep: at sweep 0 from any locals,
    at another sweep from locals that hold a stack of the same layer
    shape. *)
Lemma sweep_body_accepts (argsort : list Q -> list nat) (radar : Radar)
    (rhv_filter : bool) (rhv_value : Q) (N c : nat) (st : locals)
    (sweep : Z) :
  (1 <= N)%nat ->
  sweep_accepted argsort radar rhv_filter rhv_value N c sweep ->
  sweep = 0%Z \/ stack_ready N c st ->
  exists st',
    sweep_body argsort radar rhv_filter rhv_value st sweep = Ok st' /\
    stack_ready N c st'.
Proof.
  intros HN [s [e [z [zf [Hs [He [Hz [Hzf Hacc]]]]]]]] Hst.
  cbv zeta in Hacc.
  destruct Hacc as [Hsort [Hnz [Hnlon [Hnlat [Hc Hnorm]]]]].
  destruct (@reorder_rows argsort zf _ _ _ Hsort Hnz Hnlon Hnlat)
    as [z' [lon' [lat' [Hre [[Hz'n Hz'c] [[Hlon'n _] [[Hlat'n _] _]]]]]]].
  assert (Hpos : (1 <= length (py_slice (azimuth radar) s (e + 1)))%nat).
  { unfold normalized_rows in Hnorm.
    destruct (_ <? 720)%nat; lia. }
  assert (Hshape : shape (upsample_if_coarse lon' z') = (N, c)).
  { rewrite upsample_if_coarse_shape by congruence.
    rewrite Hz'n, Hnorm, Hz'c, Hc. reflexivity. }
  unfold sweep_body. rewrite Hs, He, Hz. cbn [bind]. rewrite Hzf. cbn [bind].
  rewrite Hre. cbn [bind fst snd].
  destruct (sweep =? 0)%Z eqn:E0.
  - destruct (close_wrap_ok lon') as [g1 Hg1]; [lia |].
    destruct (close_wrap_ok lat') as [g2 Hg2]; [lia |].
    rewrite Hg1, Hg2. cbn [bind fst snd].
    eexists. split; [reflexivity |].
    exists (newaxis (upsample_if_coarse lon' z')), g1, g2.
    cbn [z_stack lon_0 lat_0 newaxis layers layer_shape].
    split; [reflexivity |]. split; [exact Hshape |].
    split; [discriminate |].
    split; [| split; reflexivity].
    constructor; [| constructor].
    injection Hshape as Hn _. exact Hn.
  - destruct Hst as [H0 | [zs [g1 [g2 [Hzs [Hls [Hne [Hall [Hg1 Hg2]]]]]]]]].
    + subst sweep. discriminate E0.
    + cbn [bind]. rewrite Hzs. cbn [read_local bind].
      unfold concatenate. cbn [newaxis layer_shape layers].
      rewrite Hls, Hshape, shape_eqb_refl. cbn [bind].
      eexists. split; [reflexivity |].
      eexists _, g1, g2. cbn [z_stack lon_0 lat_0 layers layer_shape].
      split; [reflexivity |]. split; [reflexivity |].
      split.
      * destruct (layers zs); [contradiction | discriminate].
      * split; [| split; assumption].
        apply Forall_map. apply Forall_app. split.
        -- eapply Forall_impl; [| exact Hall].
           intros l Hl. cbv beta. rewrite length_map. exact Hl.
        -- constructor; [| constructor]. rewrite length_map.
           injection Hshape as Hn _. exact Hn.
Qed.

(** C6 (as amended): a sweep is not rejected for a ray count other than
    360 or 720.  A sweep of [n] rays contributes [2 n] rows when [n < 720]
    and [n] rows otherwise; a volume that starts with sweep 0, whose sweeps
    all contribute the same number [N >= 1] of rows and have the same
    number of gates, and whose time array can be decoded, is processed to
    the end and returns a composite of [N] rows, whatever the ray counts
    are. *)
Theorem any_ray_count_is_processed
    (argsort : list Q -> list nat)
    (num2date : string -> list Q -> result (list Z))
    (radar : Radar) (rhv_filter : bool) (rhv_value : Q) (verbose : bool)
    (N c : nat) (rest : list Z) (stamps : list Z) :
  (1 <= N)%nat ->
  sweep_number radar = 0%Z :: rest ->
  Forall (sweep_accepted argsort radar rhv_filter rhv_value N c)
         (sweep_number radar) ->
  num2date (time_units radar) (time radar) = Ok stamps ->
  exists d,
    composite_reflectivity argsort num2date radar rhv_filter rhv_value verbose
    = Ok d /\
    shape (data (composite_reflectivity_entry d)) = (N, c).
Proof.
  intros HN Hsweeps Hall Hdec. rewrite Hsweeps in Hall.
  inversion Hall as [| x xs H0 Hrest]; subst x xs.
  destruct (@sweep_body_accepts argsort radar rhv_filter rhv_value N c
              no_locals 0%Z HN H0 (or_introl eq_refl)) as [st1 [Hst1 Hready1]].
  destruct (@foldM_ok Z locals (stack_ready N c)
              (sweep_body argsort radar rhv_filter rhv_value) rest)
    with (s := st1) as [st [Hloop Hready]].
  - intros s a Hin Hs.
    apply sweep_body_accepts; [exact HN | | right; exact Hs].
    rewrite Forall_forall in Hrest. apply Hrest. exact Hin.
  - exact Hready1.
  - destruct Hready as [zs [g1 [g2 [Hzs [Hls [Hne [Hlen [Hg1 Hg2]]]]]]]].
    unfold composite_reflectivity. rewrite Hsweeps. cbn [foldM].
    rewrite Hst1. cbn [bind]. rewrite Hloop. cbn [bind].
    unfold finish. rewrite Hzs, Hg1, Hg2, Hdec. cbn [read_local bind].
    unfold max_axis0.
    destruct (layers zs) as [| l0 ls] eqn:El; [contradiction |].
    cbn [bind]. eexists. split; [reflexivity |].
    cbn [composite_reflectivity_entry data]. unfold shape, nrows.
    cbn [arr_rows arr_ncols]. rewrite Hls. cbn [snd].
    rewrite length_map.
    inversion Hlen as [| y ys Hl0 Hls']; subst y ys.
    rewrite (@fold_left_map2_length cell cell_max N ls l0 Hl0 Hls').
    reflexivity.
Qed.

Lemma any_ray_count_is_processed_witness :
  (1 <= 8)%nat /\
  sweep_number four_ray_volume_with_rho = [0%Z] /\
  Forall (sweep_accepted NpySort.argsort four_ray_volume_with_rho true
                         default_rhv_value 8 2)
         (sweep_number four_ray_volume_with_rho) /\
  decoded (time_units four_ray_volume_with_rho)
          (time four_ray_volume_with_rho)
  = Ok [0; 2000000; 4000000; 10000000]%Z /\
  exists d,
    run four_ray_volume_with_rho true default_rhv_value = Ok d /\
    shape (data (composite_reflectivity_entry d)) = (8%nat, 2%nat).
Proof.
  assert (HN : (1 <= 8)%nat) by lia.
  assert (Hacc : Forall (sweep_accepted NpySort.argsort
                           four_ray_volume_with_rho true default_rhv_value 8 2)
                        (sweep_number four_ray_volume_with_rho)).
  { constructor; [| constructor].
    do 4 eexists.
    split; [reflexivity |]. split; [reflexivity |].
    split; [reflexivity |]. split; [reflexivity |].
    cbv zeta.
    split; [apply is_argsortb_sound; vm_compute; reflexivity |].
    split; [vm_compute; lia |]. split; [vm_compute; lia |].
    split; [vm_compute; lia |]. split; reflexivity. }
  assert (Hdec : decoded (time_units four_ray_volume_with_rho)
                         (time four_ray_volume_with_rho)
                 = Ok [0; 2000000; 4000000; 10000000]%Z)
    by (vm_compute; reflexivity).
  split; [exact HN |]. split; [reflexivity |]. split; [exact Hacc |].
  split; [exact Hdec |].
  apply (@any_ray_count_is_processed NpySort.argsort decoded
           four_ray_volume_with_rho true default_rhv_value default_verbose
           8 2 [] _ HN eq_refl Hacc Hdec).
Defined.

(** C6 as stated fails: a sweep of four rays, neither 360 nor 720, is
    processed and a composite of eight rows is returned. *)
Lemma four_ray_sweep_yields_composite :
  length (azimuth four_ray_volume_with_rho) = 4%nat /\
  4%nat <> 360%nat /\ 4%nat <> 720%nat /\
  (exists d,
      run four_ray_volume_with_rho true default_rhv_value = Ok d /\
      nrows (data (composite_reflectivity_entry d)) = 8%nat) /\
  ~ (exists e, run four_ray_volume_with_rho true default_rhv_value = Raise e).
Proof.
  split; [reflexivity |]. split; [lia |]. split; [lia |].
  destruct (run four_ray_volume_with_rho true default_rhv_value)
    as [d | e] eqn:E; [| vm_compute in E; discriminate E].
  split.
  - exists d. split; [reflexivity |].
    vm_compute in E. inversion E. reflexivity.
  - intros [e He]. discriminate He.
Qed.

(* ===================================================================== *)
(** ** The reduction and the returned grids *)
(* ===================================================================== *)

(** [numpy.concatenate] returns a stack without any masked sample. *)
Lemma concatenate_unmasked (a b c : ndarray3 cell) :
  concatenate a b = Ok c ->
  Forall (Forall (Forall (fun x => cmask x = false))) (layers c).
Proof.
  unfold concatenate. destruct (shape_eqb _ _); intros H; [| discriminate H].
  inversion H; subst c; clear H. cbn [layers].
  apply Forall_map. apply Forall_forall. intros l _.
  apply Forall_map. apply Forall_forall. intros r _.
  apply Forall_map. apply Forall_forall. intros x _. reflexivity.
Qed.

(** C1, on the volume of two sweeps of one ray and one gate: after the
    filter the sample of sweep 0 (50 dBZ, correlation 0.5) is invalid and
    the sample of sweep 1 (10 dBZ, correlation 0.99) is valid, so the
    maximum of the valid values is 10; the composite returned is a valid
    50 in both rows. *)
Theorem masked_sample_wins_in_composite :
  exists z0 z1 d,
    bind (get_field clutter_volume 0 "reflectivity")
         (rhv_filter_step clutter_volume true default_rhv_value 0) = Ok z0 /\
    bind (get_field clutter_volume 1 "reflectivity")
         (rhv_filter_step clutter_volume true default_rhv_value 1) = Ok z1 /\
    map (map valid_value) (arr_rows z0) = [[None]] /\
    map (map valid_value) (arr_rows z1) = [[Some 10]] /\
    run clutter_volume true default_rhv_value = Ok d /\
    map (map valid_value) (arr_rows (data (composite_reflectivity_entry d)))
    = [[Some 50]; [Some 50]].
Proof.
  do 3 eexists.
  split; [vm_compute; reflexivity |]. split; [vm_compute; reflexivity |].
  split; [reflexivity |]. split; [reflexivity |].
  split; [vm_compute; reflexivity |]. reflexivity.
Qed.

(** C2, on the volume of one sweep of four rays: the returned longitude and
    latitude grids have four rows and the returned composite has eight. *)
Theorem coarse_first_sweep_grid_rows :
  exists d,
    run four_ray_volume false default_rhv_value = Ok d /\
    nrows (data (longitude d)) = 4%nat /\
    nrows (data (latitude d)) = 4%nat /\
    nrows (data (composite_reflectivity_entry d)) = 8%nat.
Proof.
  eexists. split; [vm_compute; reflexivity |].
  repeat split.
Qed.

(* ===================================================================== *)
(** ** One pass of the loop body, taken apart *)
(* ===================================================================== *)

Lemma foldM_each {A S : Type} (f : S -> A -> result S) (l : list A)
    (s s' : S) (a : A) :
  foldM f s l = Ok s' -> In a l -> exists s0 s1, f s0 a = Ok s1.
Proof.
  revert s. induction l as [| x l IH]; intros s H Hin.
  - destruct Hin.
  - cbn [foldM] in H. inv_bind_as H s1 H1. destruct Hin as [-> | Hin].
    + exists s, s1. exact H1.
    + eapply IH; eassumption.
Qed.

Lemma foldM_app {A S : Type} (f : S -> A -> result S) (l m : list A)
    (s s' : S) :
  foldM f s (l ++ m) = Ok s' ->
  exists s1, foldM f s l = Ok s1 /\ foldM f s1 m = Ok s'.
Proof.
  revert s. induction l as [| x l IH]; intros s H.
  - exists s. split; [reflexivity | exact H].
  - cbn [app foldM] in H. inv_bind_as H s0 H0.
    destruct (IH _ H) as [s1 [H1 H2]].
    exists s1. split; [| exact H2]. cbn [foldM]. rewrite H0. exact H1.
Qed.

(* ===================================================================== *)
(** ** What a completed call guarantees of its input *)
(* ===================================================================== *)

(** X1: a call returns a dictionary only if the first entry of
    [sweep_number] is 0; a volume whose sweep numbers start with anything
    else makes the call raise. *)
Theorem completed_call_starts_at_sweep_0
    (argsort : list Q -> list nat) (num2date : string -> list Q -> result (list Z))
    (radar : Radar) (rhv_filter : bool) (rhv_value : Q) (verbose : bool)
    (d : comp_dict) :
  composite_reflectivity argsort num2date radar rhv_filter rhv_value verbose
  = Ok d ->
  exists rest, sweep_number radar = 0%Z :: rest.
Proof.
  intros H. unfold composite_reflectivity in H. inv_bind_as H st Hloop.
  destruct (sweep_number radar) as [| a rest].
  - inversion Hloop; subst st. discriminate H.
  - exists rest. cbn [foldM] in Hloop. inv_bind_as Hloop st1 H1.
    destruct (sweep_body_inv _ _ _ _ _ _ H1)
      as [s [e [z [zf [z' [lon' [lat' [_ [_ [_ [_ [_ [_ [_ [_ Hcase]]]]]]]]]]]]]]].
    destruct Hcase as [[H0 _] | [_ [_ [_ [zs [zs' [Hzs _]]]]]]].
    + subst a. reflexivity.
    + discriminate Hzs.
Qed.

Lemma completed_call_starts_at_sweep_0_witness :
  exists d,
    run clutter_volume true default_rhv_value = Ok d /\
    exists rest, sweep_number clutter_volume = 0%Z :: rest.
Proof.
  destruct (run clutter_volume true default_rhv_value) as [d | e] eqn:E;
    [| vm_compute in E; discriminate E].
  exists d. split; [reflexivity |].
  exact (completed_call_starts_at_sweep_0 NpySort.argsort decoded
           clutter_volume true default_rhv_value default_verbose E).
Defined.

Lemma less_than_shape (rho : marray) (v : Q) :
  shape (make_mask (less_than rho v)) = shape rho.
Proof.
  unfold shape, nrows. cbn [make_mask less_than arr_rows arr_ncols].
  rewrite !length_map. reflexivity.
Qed.

(** X2: a call returns a dictionary only if every sweep listed in
    [sweep_number] has its index range and its reflectivity field and, when
    filtering is on, a correlation field of the same shape: a field that
    [get_field] cannot serve for any listed sweep makes the whole call
    raise, and no partial composite is returned. *)
Theorem completed_call_had_every_field
    (argsort : list Q -> list nat) (num2date : string -> list Q -> result (list Z))
    (radar : Radar) (rhv_filter : bool) (rhv_value : Q) (verbose : bool)
    (d : comp_dict) (sweep : Z) :
  composite_reflectivity argsort num2date radar rhv_filter rhv_value verbose
  = Ok d ->
  In sweep (sweep_number radar) ->
  exists s e z,
    py_getitem (sweep_start_ray_index radar) sweep = Ok s /\
    py_getitem (sweep_end_ray_index radar) sweep = Ok e /\
    get_field radar sweep "reflectivity" = Ok z /\
    (rhv_filter = true ->
     exists rho,
       get_field radar sweep "cross_correlation_ratio" = Ok rho /\
       shape rho = shape z).
Proof.
  intros H Hin. unfold composite_reflectivity in H. inv_bind_as H st Hloop.
  destruct (foldM_each _ _ _ _ Hloop Hin) as [s0 [s1 Hbody]].
  destruct (sweep_body_inv _ _ _ _ _ _ Hbody)
    as [s [e [z [zf [z' [lon' [lat' [Hs [He [Hz [Hzf _]]]]]]]]]]].
  exists s, e, z. repeat (split; [assumption |]).
  intros Hf. subst rhv_filter. unfold rhv_filter_step in Hzf.
  inv_bind_as Hzf rho Hrho. exists rho. split; [exact Hrho |].
  unfold masked_where in Hzf.
  destruct (shape_eqb _ _) eqn:Es; [| discriminate Hzf].
  apply shape_eqb_eq in Es. rewrite less_than_shape in Es. exact Es.
Qed.

Lemma completed_call_had_every_field_witness :
  exists d,
    run clutter_volume true default_rhv_value = Ok d /\
    In 1%Z (sweep_number clutter_volume) /\
    exists s e z,
      py_getitem (sweep_start_ray_index clutter_volume) 1 = Ok s /\
      py_getitem (sweep_end_ray_index clutter_volume) 1 = Ok e /\
      get_field clutter_volume 1 "reflectivity" = Ok z /\
      (true = true ->
       exists rho,
         get_field clutter_volume 1 "cross_correlation_ratio" = Ok rho /\
         shape rho = shape z).
Proof.
  destruct (run clutter_volume true default_rhv_value) as [d | e] eqn:E;
    [| vm_compute in E; discriminate E].
  assert (Hin : In 1%Z (sweep_number clutter_volume))
    by (right; left; reflexivity).
  exists d. split; [reflexivity |]. split; [exact Hin |].
  exact (completed_call_had_every_field NpySort.argsort decoded
           clutter_volume true default_rhv_value default_verbose 1 E Hin).
Defined.

(* ===================================================================== *)
(** ** Row counts of the returned arrays *)
(* ===================================================================== *)

Lemma unmask_layers_length (N : nat) (ls : list (list (list cell))) :
  Forall (fun l => length l = N) ls ->
  Forall (fun l => length l = N) (unmask_layers ls).
Proof.
  intros H. unfold unmask_layers. apply Forall_map.
  eapply Forall_impl; [| exact H].
  intros l Hl. cbv beta. rewrite length_map. exact Hl.
Qed.

Lemma sweep_body_consistent (argsort : list Q -> list nat) (radar : Radar)
    (rhv_filter : bool) (rhv_value : Q) (st st' : locals) (sweep : Z) :
  locals_consistent st ->
  sweep_body argsort radar rhv_filter rhv_value st sweep = Ok st' ->
  locals_consistent st'.
Proof.
  intros Hst H.
  destruct (sweep_body_inv _ _ _ _ _ _ H)
    as [s [e [z [zf [z' [lon' [lat' [_ [_ [_ [_ [Hz' [Hlon' [Hlat' [_ Hcase]]]]]]]]]]]]]]].
  destruct (take_rows_spec _ _ Hz') as [Hnz _].
  destruct (take_rows_spec _ _ Hlon') as [Hnlon _].
  destruct (take_rows_spec _ _ Hlat') as [Hnlat _].
  assert (Hshape : shape (upsample_if_coarse lon' z')
                   = (normalized_rows (nrows lon'), arr_ncols z')).
  { rewrite upsample_if_coarse_shape by congruence.
    rewrite Hnz, Hnlon. reflexivity. }
  destruct Hcase as [[H0 [g1 [g2 [Hg1 [Hg2 [Hl1 [Hl2 Hstack]]]]]]]
                    | [Hne [Hl1 [Hl2 [zs [zs' [Hzs [Hcat Hstack]]]]]]]].
  - intros zs0 Hzs0. rewrite Hstack in Hzs0. inversion Hzs0; subst zs0.
    destruct (close_wrap_spec _ Hg1) as [Hn1 [Hpos _]].
    destruct (close_wrap_spec _ Hg2) as [Hn2 _].
    exists g1, g2. cbn [newaxis layer_shape layers].
    split; [exact Hl1 |]. split; [exact Hl2 |].
    split; [congruence |]. split; [lia |].
    split; [rewrite Hshape, Hn1; reflexivity |].
    split; [discriminate |].
    constructor; [reflexivity | constructor].
  - intros zs0 Hzs0. rewrite Hstack in Hzs0. inversion Hzs0; subst zs0.
    destruct (Hst zs Hzs) as [g1 [g2 [Hg1 [Hg2 [Heq [Hpos [Hfst [Hnil Hall]]]]]]]].
    destruct (concatenate_inv _ _ Hcat) as [Hsh [Hsh' Hlayers]].
    exists g1, g2.
    split; [congruence |]. split; [congruence |].
    split; [exact Heq |]. split; [exact Hpos |].
    split; [rewrite Hsh'; exact Hfst |].
    split.
    + rewrite Hlayers. unfold unmask_layers.
      destruct (layers zs); [contradiction | discriminate].
    + rewrite Hlayers, Hsh'. apply unmask_layers_length.
      apply Forall_app. split; [exact Hall |].
      cbn [newaxis layers]. constructor; [| constructor].
      rewrite Hsh. reflexivity.
Qed.

(** X3: in every returned dictionary the longitude and latitude grids have
    the same number [n >= 1] of rows and the composite has [2 n] rows when
    [n < 720] and [n] rows otherwise; the composite and the grids have the
    same number of rows exactly when the grids have 720 rows or more. *)
Theorem returned_row_counts
    (argsort : list Q -> list nat) (num2date : string -> list Q -> result (list Z))
    (radar : Radar) (rhv_filter : bool) (rhv_value : Q) (verbose : bool)
    (d : comp_dict) :
  composite_reflectivity argsort num2date radar rhv_filter rhv_value verbose
  = Ok d ->
  nrows (data (latitude d)) = nrows (data (longitude d)) /\
  (1 <= nrows (data (longitude d)))%nat /\
  nrows (data (composite_reflectivity_entry d))
  = normalized_rows (nrows (data (longitude d))) /\
  (nrows (data (composite_reflectivity_entry d)) = nrows (data (longitude d))
   <-> (720 <= nrows (data (longitude d)))%nat).
Proof.
  intros H. unfold composite_reflectivity in H. inv_bind_as H st Hloop.
  assert (Hcons : locals_consistent st).
  { eapply (foldM_invariant locals_consistent); [| | exact Hloop].
    - intros s a s' Hs Hstep. eapply sweep_body_consistent; eassumption.
    - intros zs Hzs. discriminate Hzs. }
  unfold finish in H.
  inv_bind_as H zs Hzs. inv_bind_as H compz Hmax. inv_bind_as H stamps Hstamps.
  inv_bind_as H lon0 Hlon0. inv_bind_as H lat0 Hlat0.
  inversion H; subst d; clear H.
  cbn [longitude latitude data composite_reflectivity_entry].
  assert (Hz : z_stack st = Some zs)
    by (destruct (z_stack st); [inversion Hzs; reflexivity | discriminate Hzs]).
  destruct (Hcons zs Hz) as [g1 [g2 [Hg1 [Hg2 [Heq [Hpos [Hfst [Hnil Hall]]]]]]]].
  rewrite Hg1 in Hlon0. rewrite Hg2 in Hlat0.
  inversion Hlon0; subst lon0. inversion Hlat0; subst lat0.
  assert (Hn : nrows compz = normalized_rows (nrows g1)).
  { unfold max_axis0 in Hmax.
    destruct (layers zs) as [| l0 ls]; [discriminate Hmax |].
    inversion Hmax; subst compz. unfold nrows at 1. cbn [arr_rows].
    rewrite length_map.
    inversion Hall as [| y ys Hl0 Hls]; subst y ys.
    rewrite (@fold_left_map2_length cell cell_max _ ls l0 Hl0 Hls).
    exact Hfst. }
  split; [symmetry; exact Heq |]. split; [exact Hpos |].
  split; [exact Hn |].
  rewrite Hn. unfold normalized_rows.
  destruct (nrows g1 <? 720)%nat eqn:E.
  - apply Nat.ltb_lt in E. lia.
  - apply Nat.ltb_ge in E. lia.
Qed.

Lemma returned_row_counts_witness :
  exists d,
    run four_ray_volume false default_rhv_value = Ok d /\
    nrows (data (longitude d)) = 4%nat /\
    nrows (data (composite_reflectivity_entry d))
    = normalized_rows (nrows (data (longitude d))) /\
    nrows (data (composite_reflectivity_entry d)) = 8%nat.
Proof.
  destruct (run four_ray_volume false default_rhv_value) as [d | e] eqn:E;
    [| vm_compute in E; discriminate E].
  exists d. split; [reflexivity |].
  destruct (returned_row_counts NpySort.argsort decoded four_ray_volume false
              default_rhv_value default_verbose E) as [_ [_ [Hn _]]].
  assert (H4 : nrows (data (longitude d)) = 4%nat)
    by (vm_compute in E; inversion E; reflexivity).
  split; [exact H4 |]. split; [exact Hn |].
  rewrite Hn, H4. reflexivity.
Defined.

(* ===================================================================== *)
(** ** The stack and the composite of a volume *)
(* ===================================================================== *)

Lemma unmask_layers_absorb (a b : list (list (list cell))) :
  unmask_layers (unmask_layers a ++ b) = unmask_layers (a ++ b).
Proof.
  unfold unmask_layers. rewrite !map_app. f_equal.
  rewrite map_map. apply map_ext. intros l.
  rewrite map_map. apply map_ext. intros r.
  rewrite map_map. apply map_ext. intros c. reflexivity.
Qed.

(** After sweep 0 every further pass appends the field of its sweep, and
    the stack holds the data of all of them without their masks. *)
Lemma loop_stack (argsort : list Q -> list nat) (radar : Radar)
    (rhv_filter : bool) (rhv_value : Q) (rest : list Z) :
  Forall (fun s => s <> 0%Z) rest ->
  forall st st' zs,
    z_stack st = Some zs ->
    foldM (sweep_body argsort radar rhv_filter rhv_value) st rest = Ok st' ->
    exists fs zs',
      mapM (sweep_field argsort radar rhv_filter rhv_value) rest = Ok fs /\
      z_stack st' = Some zs' /\
      layer_shape zs' = layer_shape zs /\
      Forall (fun z => shape z = layer_shape zs) fs /\
      layers zs' = match rest with
                   | [] => layers zs
                   | _ :: _ =>
                       unmask_layers (layers zs ++ map (@arr_rows cell) fs)
                   end.
Proof.
  induction 1 as [| a rest Ha Hrest IH]; intros st st' zs Hzs Hloop.
  - inversion Hloop; subst st'. exists [], zs.
    split; [reflexivity |]. split; [exact Hzs |].
    split; [reflexivity |]. split; [constructor | reflexivity].
  - cbn [foldM] in Hloop. inv_bind_as Hloop st1 H1.
    destruct (sweep_body_inv _ _ _ _ _ _ H1)
      as [s [e [z [zf [z' [lon' [lat' [_ [_ [_ [_ [_ [_ [_ [Hfield Hcase]]]]]]]]]]]]]]].
    destruct Hcase as [[H0 _] | [_ [_ [_ [zs0 [zs1 [Hzs0 [Hcat Hst1]]]]]]]];
      [contradiction |].
    rewrite Hzs in Hzs0. inversion Hzs0; subst zs0.
    destruct (concatenate_inv _ _ Hcat) as [Hsh [Hsh1 Hl1]].
    cbn [newaxis layer_shape layers] in Hsh, Hl1.
    destruct (IH st1 st' zs1 Hst1 Hloop)
      as [fs [zs' [Hmap [Hst' [Hsh' [Hall Hlayers]]]]]].
    exists (upsample_if_coarse lon' z' :: fs), zs'.
    split; [cbn [mapM]; rewrite Hfield; cbn [bind]; rewrite Hmap; reflexivity |].
    split; [exact Hst' |].
    split; [congruence |].
    split.
    + constructor; [symmetry; exact Hsh |].
      eapply Forall_impl; [| exact Hall].
      intros x Hx. cbv beta in *. congruence.
    + rewrite Hlayers. destruct rest as [| b rest'].
      * inversion Hmap; subst fs. exact Hl1.
      * rewrite Hl1, unmask_layers_absorb, <- app_assoc. reflexivity.
Qed.

(** The composite of a volume whose sweep numbers are 0 followed by
    non-zero numbers, in terms of the fields of its sweeps. *)
Lemma completed_stack
    (argsort : list Q -> list nat) (num2date : string -> list Q -> result (list Z))
    (radar : Radar) (rhv_filter : bool) (rhv_value : Q) (verbose : bool)
    (d : comp_dict) (rest : list Z) :
  sweep_number radar = 0%Z :: rest ->
  Forall (fun s => s <> 0%Z) rest ->
  composite_reflectivity argsort num2date radar rhv_filter rhv_value verbose
  = Ok d ->
  exists z0 fs,
    sweep_field argsort radar rhv_filter rhv_value 0 = Ok z0 /\
    mapM (sweep_field argsort radar rhv_filter rhv_value) rest = Ok fs /\
    Forall (fun z => shape z = shape z0) fs /\
    shape (data (composite_reflectivity_entry d)) = shape z0 /\
    arr_rows (data (composite_reflectivity_entry d))
    = map (map fill_masked)
          match rest with
          | [] => arr_rows z0
          | _ :: _ =>
              fold_left (map2 (map2 cell_max))
                        (unmask_layers (map (@arr_rows cell) fs))
                        (map (map drop_mask) (arr_rows z0))
          end.
Proof.
  intros Hsweeps Hrest H. unfold composite_reflectivity in H.
  inv_bind_as H st Hloop. rewrite Hsweeps in Hloop.
  cbn [foldM] in Hloop. inv_bind_as Hloop st1 H1.
  destruct (sweep_body_inv _ _ _ _ _ _ H1)
    as [s [e [z [zf [z' [lon' [lat' [_ [_ [_ [_ [_ [_ [_ [Hfield Hcase]]]]]]]]]]]]]]].
  destruct Hcase as [[_ [g1 [g2 [_ [_ [_ [_ Hst1]]]]]]] | [Hne _]];
    [| contradiction Hne; reflexivity].
  set (z0 := upsample_if_coarse lon' z') in *.
  destruct (@loop_stack _ _ _ _ _ Hrest _ _ _ Hst1 Hloop)
    as [fs [zs' [Hmap [Hst' [Hsh' [Hall Hlayers]]]]]].
  cbn [newaxis layer_shape layers] in Hsh', Hall, Hlayers.
  unfold finish in H. rewrite Hst' in H. cbn [read_local bind] in H.
  inv_bind_as H compz Hmax. inv_bind_as H stamps Hstamps. inv_bind_as H lon0 Hlon0. inv_bind_as H lat0 Hlat0.
  inversion H; subst d; clear H. cbn [composite_reflectivity_entry data].
  assert (Hrows : arr_rows compz
     = map (map fill_masked)
          match rest with
          | [] => arr_rows z0
          | _ :: _ =>
              fold_left (map2 (map2 cell_max))
                        (unmask_layers (map (@arr_rows cell) fs))
                        (map (map drop_mask) (arr_rows z0))
          end /\ arr_ncols compz = arr_ncols z0).
  { unfold max_axis0 in Hmax. rewrite Hlayers, Hsh' in Hmax.
    destruct rest as [| b rest'].
    - inversion Hmax; subst compz. split; reflexivity.
    - cbn [app unmask_layers map] in Hmax.
      inversion Hmax; subst compz. split; reflexivity. }
  destruct Hrows as [Hrows Hcols].
  exists z0, fs. split; [exact Hfield |]. split; [exact Hmap |].
  split; [exact Hall |]. split; [| exact Hrows].
  unfold shape. rewrite Hcols. f_equal.
  unfold nrows at 1. rewrite Hrows, length_map.
  destruct rest as [| b rest']; [reflexivity |].
  apply fold_left_map2_length.
  - rewrite length_map. reflexivity.
  - apply unmask_layers_length. apply Forall_map.
    eapply Forall_impl; [| exact Hall].
    intros x Hx. cbv beta in *. unfold shape in Hx. injection Hx as Hx _.
    exact Hx.
Qed.

Lemma valid_value_fill_masked (c : cell) :
  valid_value (fill_masked c) = valid_value c.
Proof.
  unfold fill_masked, valid_value. destruct (cmask c) eqn:E; cbn [cmask].
  - reflexivity.
  - rewrite E. reflexivity.
Qed.

(** X4: for a volume of the single sweep 0 the composite is the field of
    that sweep (filtered, reordered, doubled when coarse) with its mask
    kept: same shape, the same valid values at the same cells, and the fill
    value under every masked cell. *)
Theorem single_sweep_composite_is_its_field
    (argsort : list Q -> list nat) (num2date : string -> list Q -> result (list Z))
    (radar : Radar) (rhv_filter : bool) (rhv_value : Q) (verbose : bool)
    (d : comp_dict) :
  sweep_number radar = [0%Z] ->
  composite_reflectivity argsort num2date radar rhv_filter rhv_value verbose
  = Ok d ->
  exists z0,
    sweep_field argsort radar rhv_filter rhv_value 0 = Ok z0 /\
    shape (data (composite_reflectivity_entry d)) = shape z0 /\
    arr_rows (data (composite_reflectivity_entry d))
    = map (map fill_masked) (arr_rows z0) /\
    map (map valid_value) (arr_rows (data (composite_reflectivity_entry d)))
    = map (map valid_value) (arr_rows z0).
Proof.
  intros Hsweeps H.
  destruct (@completed_stack _ _ _ _ _ _ _ _ Hsweeps (Forall_nil _) H)
    as [z0 [fs [Hfield [_ [_ [Hshape Hrows]]]]]].
  exists z0. split; [exact Hfield |]. split; [exact Hshape |].
  split; [exact Hrows |].
  rewrite Hrows, map_map. apply map_ext. intros r.
  rewrite map_map. apply map_ext. intros c. apply valid_value_fill_masked.
Qed.

Lemma single_sweep_composite_is_its_field_witness :
  exists d z0,
    sweep_number four_ray_volume_with_rho = [0%Z] /\
    run four_ray_volume_with_rho true default_rhv_value = Ok d /\
    sweep_field NpySort.argsort four_ray_volume_with_rho true
                default_rhv_value 0 = Ok z0 /\
    map (map valid_value) (arr_rows (data (composite_reflectivity_entry d)))
    = map (map valid_value) (arr_rows z0) /\
    map (map valid_value) (arr_rows z0)
    = [[Some 11; None]; [Some 11; None];
       [Some 41; Some 42]; [Some 41; Some 42];
       [None; Some 32]; [None; Some 32];
       [Some 21; Some 22]; [Some 21; Some 22]].
Proof.
  destruct (run four_ray_volume_with_rho true default_rhv_value)
    as [d | e] eqn:E; [| vm_compute in E; discriminate E].
  destruct (@single_sweep_composite_is_its_field NpySort.argsort decoded
              four_ray_volume_with_rho true default_rhv_value default_verbose
              d eq_refl E) as [z0 [Hfield [_ [_ Hvalid]]]].
  exists d, z0. split; [reflexivity |]. split; [reflexivity |].
  split; [exact Hfield |]. split; [exact Hvalid |].
  vm_compute in Hfield. inversion Hfield. reflexivity.
Defined.

(** X7: for a volume whose sweep numbers are 0 followed by non-zero
    numbers, a returned composite has the shape of the field of every sweep
    of the volume: sweeps whose fields differ in their number of rows
    (after doubling) or of gates never yield a composite. *)
Theorem every_sweep_has_the_composite_shape
    (argsort : list Q -> list nat) (num2date : string -> list Q -> result (list Z))
    (radar : Radar) (rhv_filter : bool) (rhv_value : Q) (verbose : bool)
    (d : comp_dict) (rest : list Z) (sweep : Z) :
  sweep_number radar = 0%Z :: rest ->
  Forall (fun s => s <> 0%Z) rest ->
  composite_reflectivity argsort num2date radar rhv_filter rhv_value verbose
  = Ok d ->
  In sweep (sweep_number radar) ->
  exists z,
    sweep_field argsort radar rhv_filter rhv_value sweep = Ok z /\
    shape z = shape (data (composite_reflectivity_entry d)).
Proof.
  intros Hsweeps Hrest H Hin.
  destruct (@completed_stack _ _ _ _ _ _ _ _ Hsweeps Hrest H)
    as [z0 [fs [Hfield [Hmap [Hall [Hshape _]]]]]].
  rewrite Hsweeps in Hin. destruct Hin as [<- | Hin].
  - exists z0. split; [exact Hfield | symmetry; exact Hshape].
  - clear Hrest Hsweeps. revert fs Hmap Hall.
    induction rest as [| a rest IH]; intros fs Hmap Hall; [destruct Hin |].
    cbn [mapM] in Hmap. inv_bind_as Hmap za Hza. inv_bind_as Hmap fs' Hfs'.
    inversion Hmap; subst fs. inversion Hall as [| y ys Hy Hys]; subst y ys.
    destruct Hin as [-> | Hin].
    + exists za. split; [exact Hza | congruence].
    + eapply IH; eassumption.
Qed.

Lemma every_sweep_has_the_composite_shape_witness :
  exists d z,
    sweep_number clutter_volume = 0%Z :: [1%Z] /\
    Forall (fun s => s <> 0%Z) [1%Z] /\
    run clutter_volume true default_rhv_value = Ok d /\
    In 1%Z (sweep_number clutter_volume) /\
    sweep_field NpySort.argsort clutter_volume true default_rhv_value 1
    = Ok z /\
    shape z = shape (data (composite_reflectivity_entry d)) /\
    shape z = (2%nat, 1%nat).
Proof.
  destruct (run clutter_volume true default_rhv_value) as [d | e] eqn:E;
    [| vm_compute in E; discriminate E].
  assert (Hrest : Forall (fun s => s <> 0%Z) [1%Z])
    by (constructor; [discriminate | constructor]).
  assert (Hin : In 1%Z (sweep_number clutter_volume))
    by (right; left; reflexivity).
  destruct (@every_sweep_has_the_composite_shape NpySort.argsort decoded
              clutter_volume true default_rhv_value default_verbose d
              [1%Z] 1%Z eq_refl Hrest E Hin) as [z [Hz Hshape]].
  exists d, z. split; [reflexivity |]. split; [exact Hrest |].
  split; [reflexivity |]. split; [exact Hin |].
  split; [exact Hz |]. split; [exact Hshape |].
  vm_compute in Hz. inversion Hz. reflexivity.
Defined.

(* ===================================================================== *)
(** ** The composite of several sweeps *)
(* ===================================================================== *)

Lemma cell_max_unmasked (a b : cell) :
  cmask a = false -> cmask b = false ->
  cell_max a b = {| cdata := Qmax (cdata a) (cdata b); cmask := false |}.
Proof. intros Ha Hb. unfold cell_max. rewrite Ha, Hb. reflexivity. Qed.

Lemma map2_Forall {A B C : Type} (P : A -> Prop) (P' : B -> Prop)
    (R : C -> Prop) (f : A -> B -> C) (l : list A) (m : list B) :
  (forall a b, P a -> P' b -> R (f a b)) ->
  Forall P l -> Forall P' m -> Forall R (map2 f l m).
Proof.
  intros Hf Hl. revert m. induction Hl as [| a l Ha _ IH]; intros m Hm.
  - constructor.
  - destruct Hm as [| b m Hb Hm]; cbn [map2]; constructor.
    + apply Hf; assumption.
    + apply IH. exact Hm.
Qed.

Lemma fold_max_unmasked (ls : list (list (list cell))) (l0 : list (list cell)) :
  Forall (Forall (fun c => cmask c = false)) l0 ->
  Forall (Forall (Forall (fun c => cmask c = false))) ls ->
  Forall (Forall (fun c => cmask c = false))
         (fold_left (map2 (map2 cell_max)) ls l0).
Proof.
  intros H0 Hls. revert l0 H0.
  induction Hls as [| l ls Hl _ IH]; intros l0 H0; cbn [fold_left].
  - exact H0.
  - apply IH.
    apply (map2_Forall (P := Forall (fun c => cmask c = false))
                       (P' := Forall (fun c => cmask c = false)));
      [| exact H0 | exact Hl].
    intros r r' Hr Hr'.
    apply (map2_Forall (P := fun c => cmask c = false)
                       (P' := fun c => cmask c = false));
      [| exact Hr | exact Hr'].
    intros a b Ha Hb. rewrite (cell_max_unmasked _ _ Ha Hb). reflexivity.
Qed.

(** X5: when the last sweep number of the volume is not 0 (the stack then
    comes out of [numpy.concatenate]), no cell of the returned composite is
    masked, whatever the masks of the fields and the outcome of the
    correlation filter are. *)
Theorem multi_sweep_composite_has_no_masked_cell
    (argsort : list Q -> list nat) (num2date : string -> list Q -> result (list Z))
    (radar : Radar) (rhv_filter : bool) (rhv_value : Q) (verbose : bool)
    (d : comp_dict) (before : list Z) (last : Z) :
  sweep_number radar = (before ++ [last])%list ->
  last <> 0%Z ->
  composite_reflectivity argsort num2date radar rhv_filter rhv_value verbose
  = Ok d ->
  Forall (Forall (fun c => cmask c = false))
         (arr_rows (data (composite_reflectivity_entry d))).
Proof.
  intros Hsweeps Hlast H. unfold composite_reflectivity in H.
  inv_bind_as H st Hloop. rewrite Hsweeps in Hloop.
  destruct (foldM_app _ _ _ _ Hloop) as [st1 [_ Hstep]].
  cbn [foldM] in Hstep. inv_bind_as Hstep st2 Hbody.
  inversion Hstep; subst st2; clear Hstep.
  destruct (sweep_body_inv _ _ _ _ _ _ Hbody)
    as [s [e [z [zf [z' [lon' [lat' [_ [_ [_ [_ [_ [_ [_ [_ Hcase]]]]]]]]]]]]]]].
  destruct Hcase as [[H0 _] | [_ [_ [_ [zs [zs' [_ [Hcat Hst]]]]]]]];
    [contradiction |].
  pose proof (concatenate_unmasked _ _ Hcat) as Hun.
  unfold finish in H. rewrite Hst in H. cbn [read_local bind] in H.
  inv_bind_as H compz Hmax. inv_bind_as H stamps Hstamps. inv_bind_as H lon0 Hlon0. inv_bind_as H lat0 Hlat0.
  inversion H; subst d; clear H. cbn [composite_reflectivity_entry data].
  unfold max_axis0 in Hmax.
  destruct (layers zs') as [| l0 ls]; [discriminate Hmax |].
  inversion Hmax; subst compz; clear Hmax. cbn [arr_rows].
  inversion Hun as [| y ys Hl0 Hls]; subst y ys.
  pose proof (fold_max_unmasked Hl0 Hls) as Hfold.
  apply Forall_map. eapply Forall_impl; [| exact Hfold].
  intros r Hr. cbv beta. apply Forall_map.
  eapply Forall_impl; [| exact Hr].
  intros c Hc. cbv beta in *. unfold fill_masked. rewrite Hc. exact Hc.
Qed.

Lemma multi_sweep_composite_has_no_masked_cell_witness :
  exists d,
    sweep_number clutter_volume = ([0%Z] ++ [1%Z])%list /\
    1%Z <> 0%Z /\
    run clutter_volume true default_rhv_value = Ok d /\
    Forall (Forall (fun c => cmask c = false))
           (arr_rows (data (composite_reflectivity_entry d))).
Proof.
  destruct (run clutter_volume true default_rhv_value) as [d | e] eqn:E;
    [| vm_compute in E; discriminate E].
  assert (Hne : 1%Z <> 0%Z) by discriminate.
  exists d. split; [reflexivity |]. split; [exact Hne |].
  split; [reflexivity |].
  exact (@multi_sweep_composite_has_no_masked_cell NpySort.argsort decoded
           clutter_volume true default_rhv_value default_verbose d
           [0%Z] 1%Z eq_refl Hne E).
Defined.

Lemma cell_at_rows_at {A : Type} (a : ndarray2 A) (i j : nat) :
  cell_at a i j = rows_at (arr_rows a) i j.
Proof. reflexivity. Qed.

Lemma rows_at_map {A B : Type} (f : A -> B) (rows : list (list A))
    (i j : nat) :
  rows_at (map (map f) rows) i j = option_map f (rows_at rows i j).
Proof.
  unfold rows_at. rewrite nth_error_map.
  destruct (nth_error rows i) as [r |]; cbn [option_map]; [| reflexivity].
  apply nth_error_map.
Qed.

Lemma rows_at_map2 {A : Type} (f : A -> A -> A) (l m : list (list A))
    (i j : nat) (a b : A) :
  rows_at l i j = Some a ->
  rows_at m i j = Some b ->
  rows_at (map2 (map2 f) l m) i j = Some (f a b).
Proof.
  unfold rows_at. intros Ha Hb.
  destruct (nth_error l i) as [r |] eqn:El; [| discriminate Ha].
  destruct (nth_error m i) as [r' |] eqn:Em; [| discriminate Hb].
  rewrite (nth_error_map2 (map2 f) _ _ _ El Em).
  apply nth_error_map2; assumption.
Qed.

(** The cell of the reduction of the stacked fields is the reduction of
    their cells. *)
Lemma rows_at_fold_fields (i j : nat) (fs : list marray) (cs : list cell) :
  Forall2 (fun z c => cell_at z i j = Some c) fs cs ->
  forall acc c_acc,
    rows_at acc i j = Some c_acc ->
    rows_at (fold_left (map2 (map2 cell_max))
                       (unmask_layers (map (@arr_rows cell) fs)) acc) i j
    = Some (fold_left cell_max (map drop_mask cs) c_acc).
Proof.
  induction 1 as [| z c fs cs Hz _ IH]; intros acc c_acc Hacc.
  - exact Hacc.
  - cbn [map unmask_layers fold_left]. apply IH.
    apply rows_at_map2; [exact Hacc |].
    rewrite rows_at_map, <- cell_at_rows_at, Hz. reflexivity.
Qed.

Lemma Qmax_cases (x y : Q) : Qmax x y = x \/ Qmax x y = y.
Proof.
  unfold Qmax, GenericMinMax.gmax. destruct (x ?= y); auto.
Qed.

(** The reduction of unmasked cells is unmasked and carries the largest of
    their data. *)
Lemma fold_cell_max_unmasked (cs : list cell) :
  Forall (fun c => cmask c = false) cs ->
  forall c0,
    cmask c0 = false ->
    cmask (fold_left cell_max cs c0) = false /\
    (forall c, In c (c0 :: cs) -> cdata c <= cdata (fold_left cell_max cs c0)) /\
    (exists c, In c (c0 :: cs) /\ cdata c = cdata (fold_left cell_max cs c0)).
Proof.
  induction 1 as [| x cs Hx _ IH]; intros c0 H0.
  - cbn [fold_left]. split; [exact H0 |]. split.
    + intros c [<- | []]. apply Qle_refl.
    + exists c0. split; [left; reflexivity | reflexivity].
  - cbn [fold_left]. rewrite (cell_max_unmasked _ _ H0 Hx).
    set (c1 := {| cdata := Qmax (cdata c0) (cdata x); cmask := false |}).
    destruct (IH c1 eq_refl) as [Hm [Hle [c [Hin Hc]]]].
    split; [exact Hm |]. split.
    + intros c' [<- | [<- | Hin']].
      * eapply Qle_trans; [| apply (Hle c1); left; reflexivity].
        apply Q.le_max_l.
      * eapply Qle_trans; [| apply (Hle c1); left; reflexivity].
        apply Q.le_max_r.
      * apply Hle. right. exact Hin'.
    + destruct Hin as [<- | Hin].
      * cbn [c1 cdata] in Hc.
        destruct (Qmax_cases (cdata c0) (cdata x)) as [E | E].
        -- exists c0. split; [left; reflexivity | congruence].
        -- exists x. split; [right; left; reflexivity | congruence].
      * exists c. split; [right; right; exact Hin | exact Hc].
Qed.

Lemma Forall2_exists {A B : Type} (P : A -> B -> Prop) (l : list A) :
  (forall a, In a l -> exists b, P a b) -> exists m, Forall2 P l m.
Proof.
  induction l as [| a l IH]; intros H.
  - exists []. constructor.
  - destruct (H a (or_introl eq_refl)) as [b Hb].
    destruct IH as [m Hm]; [intros x Hx; apply H; right; exact Hx |].
    exists (b :: m). constructor; assumption.
Qed.

Lemma Forall2_In_l {A B : Type} (P : A -> B -> Prop) (l : list A)
    (m : list B) (a : A) :
  Forall2 P l m -> In a l -> exists b, In b m /\ P a b.
Proof.
  induction 1 as [| x y l m Hxy _ IH]; intros Hin; [destruct Hin |].
  destruct Hin as [<- | Hin].
  - exists y. split; [left; reflexivity | exact Hxy].
  - destruct (IH Hin) as [b [Hb HP]]. exists b. split; [right |]; assumption.
Qed.

Lemma Forall2_In_r {A B : Type} (P : A -> B -> Prop) (l : list A)
    (m : list B) (b : B) :
  Forall2 P l m -> In b m -> exists a, In a l /\ P a b.
Proof.
  induction 1 as [| x y l m Hxy _ IH]; intros Hin; [destruct Hin |].
  destruct Hin as [<- | Hin].
  - exists x. split; [left; reflexivity | exact Hxy].
  - destruct (IH Hin) as [a [Ha HP]]. exists a. split; [right |]; assumption.
Qed.

Lemma mapM_Forall2 {A B : Type} (f : A -> result B) (l : list A)
    (bs : list B) :
  mapM f l = Ok bs -> Forall2 (fun a b => f a = Ok b) l bs.
Proof.
  revert bs. induction l as [| a l IH]; intros bs H.
  - inversion H. constructor.
  - cbn [mapM] in H. inv_bind_as H b Hb. inv_bind_as H bs' Hbs'.
    inversion H; subst bs. constructor; [exact Hb | apply IH; exact Hbs'].
Qed.

(** X6: for a volume of sweep 0 followed by at least one other sweep, all
    numbered differently from 0, the composite at a cell that every sweep's
    field has is a valid sample whose value is the largest datum found at
    that cell in the fields of the sweeps, masked samples included: it is
    not smaller than the datum of any sweep and it is the datum of one of
    them. *)
Theorem multi_sweep_composite_is_plain_maximum
    (argsort : list Q -> list nat) (num2date : string -> list Q -> result (list Z))
    (radar : Radar) (rhv_filter : bool) (rhv_value : Q) (verbose : bool)
    (d : comp_dict) (a : Z) (rest : list Z) (i j : nat) :
  sweep_number radar = 0%Z :: a :: rest ->
  Forall (fun s => s <> 0%Z) (a :: rest) ->
  composite_reflectivity argsort num2date radar rhv_filter rhv_value verbose
  = Ok d ->
  (forall s z, In s (sweep_number radar) ->
               sweep_field argsort radar rhv_filter rhv_value s = Ok z ->
               cell_at z i j <> None) ->
  exists m,
    cell_at (data (composite_reflectivity_entry d)) i j
    = Some {| cdata := m; cmask := false |} /\
    (forall s z c,
        In s (sweep_number radar) ->
        sweep_field argsort radar rhv_filter rhv_value s = Ok z ->
        cell_at z i j = Some c ->
        cdata c <= m) /\
    (exists s z c,
        In s (sweep_number radar) /\
        sweep_field argsort radar rhv_filter rhv_value s = Ok z /\
        cell_at z i j = Some c /\
        cdata c = m).
Proof.
  intros Hsweeps Hrest H Hcells.
  destruct (@completed_stack _ _ _ _ _ _ _ _ Hsweeps Hrest H)
    as [z0 [fs [Hfield [Hmap [_ [_ Hrows]]]]]].
  pose proof (mapM_Forall2 _ _ Hmap) as Hfs.
  rewrite Hsweeps in Hcells |- *.
  destruct (cell_at z0 i j) as [c0 |] eqn:Ec0;
    [| exfalso; apply (Hcells 0%Z z0 (or_introl eq_refl) Hfield); exact Ec0].
  destruct (@Forall2_exists marray cell
              (fun z c => cell_at z i j = Some c) fs) as [cs Hcs].
  { intros z Hz. destruct (Forall2_In_r _ Hfs Hz) as [s [Hs Hsz]].
    destruct (cell_at z i j) as [c |] eqn:Ec; [exists c; reflexivity |].
    exfalso. apply (Hcells s z (or_intror Hs) Hsz). exact Ec. }
  assert (Hun : Forall (fun c => cmask c = false) (map drop_mask cs))
    by (apply Forall_map; apply Forall_forall; intros c _; reflexivity).
  destruct (fold_cell_max_unmasked Hun (drop_mask c0) eq_refl)
    as [Hmask [Hle [cm [Hcm_in Hcm]]]].
  set (r := fold_left cell_max (map drop_mask cs) (drop_mask c0)) in *.
  exists (cdata r).
  split; [| split].
  - rewrite cell_at_rows_at, Hrows, rows_at_map.
    rewrite (@rows_at_fold_fields i j fs cs Hcs
               (map (map drop_mask) (arr_rows z0)) (drop_mask c0)).
    + fold r. cbn [option_map]. unfold fill_masked. rewrite Hmask.
      destruct r as [dr mr]. cbn [cmask cdata] in *. subst mr. reflexivity.
    + rewrite rows_at_map, <- cell_at_rows_at, Ec0. reflexivity.
  - intros s z c Hin Hz Hc. destruct Hin as [<- | Hin].
    + rewrite Hfield in Hz. inversion Hz; subst z.
      rewrite Ec0 in Hc. inversion Hc; subst c.
      apply (Hle (drop_mask c0)). left. reflexivity.
    + destruct (Forall2_In_l _ Hfs Hin) as [z' [Hz' Hsz']].
      rewrite Hz in Hsz'. inversion Hsz'; subst z'.
      destruct (Forall2_In_l _ Hcs Hz') as [c' [Hc' Hzc']].
      rewrite Hc in Hzc'. inversion Hzc'; subst c'.
      apply (Hle (drop_mask c)). right. apply in_map. exact Hc'.
  - destruct Hcm_in as [<- | Hin].
    + exists 0%Z, z0, c0.
      split; [left; reflexivity |]. split; [exact Hfield |].
      split; [exact Ec0 | exact Hcm].
    + apply in_map_iff in Hin. destruct Hin as [c [<- Hc]].
      destruct (Forall2_In_r _ Hcs Hc) as [z [Hz Hzc]].
      destruct (Forall2_In_r _ Hfs Hz) as [s [Hs Hsz]].
      exists s, z, c.
      split; [right; exact Hs |]. split; [exact Hsz |].
      split; [exact Hzc | exact Hcm].
Qed.

Lemma multi_sweep_composite_is_plain_maximum_witness :
  exists d m,
    sweep_number clutter_volume = 0%Z :: 1%Z :: [] /\
    Forall (fun s => s <> 0%Z) [1%Z] /\
    run clutter_volume true default_rhv_value = Ok d /\
    (forall s z, In s (sweep_number clutter_volume) ->
                 sweep_field NpySort.argsort clutter_volume true
                             default_rhv_value s = Ok z ->
                 cell_at z 0 0 <> None) /\
    cell_at (data (composite_reflectivity_entry d)) 0 0
    = Some {| cdata := m; cmask := false |} /\
    (forall s z c,
        In s (sweep_number clutter_volume) ->
        sweep_field NpySort.argsort clutter_volume true default_rhv_value s
        = Ok z ->
        cell_at z 0 0 = Some c ->
        cdata c <= m).
Proof.
  destruct (run clutter_volume true default_rhv_value) as [d | e] eqn:E;
    [| vm_compute in E; discriminate E].
  assert (Hrest : Forall (fun s => s <> 0%Z) [1%Z])
    by (constructor; [discriminate | constructor]).
  assert (Hcells : forall s z, In s (sweep_number clutter_volume) ->
             sweep_field NpySort.argsort clutter_volume true
                         default_rhv_value s = Ok z ->
             cell_at z 0 0 <> None).
  { intros s z [<- | [<- | []]] Hz; vm_compute in Hz; inversion Hz;
      discriminate. }
  destruct (@multi_sweep_composite_is_plain_maximum NpySort.argsort decoded
              clutter_volume true default_rhv_value default_verbose d
              1%Z [] 0%nat 0%nat eq_refl Hrest E Hcells)
    as [m [Hcell [Hle _]]].
  exists d, m. split; [reflexivity |]. split; [exact Hrest |].
  split; [reflexivity |]. split; [exact Hcells |].
  split; [exact Hcell | exact Hle].
Defined.

(* ===================================================================== *)
(** ** A later sweep numbered 0 *)
(* ===================================================================== *)

(** The pass for sweep number 0 does not read the locals. *)
Lemma sweep_body_0_restarts (argsort : list Q -> list nat) (radar : Radar)
    (rhv_filter : bool) (rhv_value : Q) (st st' : locals) :
  sweep_body argsort radar rhv_filter rhv_value st 0
  = sweep_body argsort radar rhv_filter rhv_value st' 0.
Proof. reflexivity. Qed.

(** X8: the loop recognises the first sweep by its number, not by its
    position: when sweep number 0 occurs again further down
    [sweep_number], the stack and the retained grids start afresh there, and
    a completed call returns exactly what it returns on the volume without
    the entries before that 0; the sweeps listed before it contribute
    nothing to the composite nor to the grids. *)
Theorem later_sweep_0_discards_earlier_sweeps
    (argsort : list Q -> list nat) (num2date : string -> list Q -> result (list Z))
    (radar : Radar) (rhv_filter : bool) (rhv_value : Q) (verbose : bool)
    (d : comp_dict) (before rest : list Z) :
  sweep_number radar = (before ++ 0%Z :: rest)%list ->
  composite_reflectivity argsort num2date radar rhv_filter rhv_value verbose
  = Ok d ->
  composite_reflectivity argsort num2date
    (with_sweep_number radar (0%Z :: rest)) rhv_filter rhv_value verbose
  = Ok d.
Proof.
  intros Hsweeps H. unfold composite_reflectivity in *.
  inv_bind_as H st Hloop. rewrite Hsweeps in Hloop.
  destruct (foldM_app _ _ _ _ Hloop) as [st1 [_ Hrest]].
  cbn [with_sweep_number sweep_number].
  change (sweep_body argsort (with_sweep_number radar (0%Z :: rest))
                     rhv_filter rhv_value)
    with (sweep_body argsort radar rhv_filter rhv_value).
  cbn [foldM] in Hrest |- *.
  rewrite (sweep_body_0_restarts argsort radar rhv_filter rhv_value
             no_locals st1).
  rewrite Hrest. cbn [bind]. exact H.
Qed.

Lemma later_sweep_0_discards_earlier_sweeps_witness :
  let radar := with_sweep_number clutter_volume [0; 1; 0; 1]%Z in
  exists d,
    sweep_number radar = ([0%Z; 1%Z] ++ 0%Z :: [1%Z])%list /\
    run radar true default_rhv_value = Ok d /\
    run (with_sweep_number radar [0; 1]%Z) true default_rhv_value = Ok d.
Proof.
  intros radar.
  destruct (run radar true default_rhv_value) as [d | e] eqn:E.
  - exists d. split; [reflexivity |]. split; [reflexivity |].
    exact (@later_sweep_0_discards_earlier_sweeps NpySort.argsort decoded
             radar true default_rhv_value default_verbose d [0%Z; 1%Z] [1%Z]
             eq_refl E).
  - vm_compute in E. discriminate E.
Defined.

(* ===================================================================== *)
(** ** The filter and the composite of several sweeps *)
(* ===================================================================== *)

Lemma map2_mask_row (m : list bool) (r : list cell) :
  length m = length r ->
  map drop_mask
      (map2 (fun b c => {| cdata := cdata c; cmask := b || cmask c |}) m r)
  = map drop_mask r.
Proof.
  revert r. induction m as [| b m IH]; intros [| c r] H;
    try discriminate H; [reflexivity |].
  cbn [map2 map]. f_equal. apply IH. simpl in H. lia.
Qed.

Lemma map2_mask_rows (n : nat) (M : list (list bool)) (Z : list (list cell)) :
  length M = length Z ->
  Forall (fun r => length r = n) M ->
  Forall (fun r => length r = n) Z ->
  map (map drop_mask)
      (map2 (map2 (fun b c => {| cdata := cdata c; cmask := b || cmask c |}))
            M Z)
  = map (map drop_mask) Z.
Proof.
  intros Hlen HM. revert Z Hlen.
  induction HM as [| m M Hm _ IH]; intros [| z Z] Hlen HZ;
    try discriminate Hlen; [reflexivity |].
  inversion HZ as [| y ys Hz HZ']; subst y ys.
  cbn [map2 map]. f_equal.
  - apply map2_mask_row. congruence.
  - apply IH; [simpl in Hlen; lia | exact HZ'].
Qed.

(** The filter changes mask bits only. *)
Lemma masked_where_data (rho z zm : marray) (v : Q) :
  rectangular rho ->
  rectangular z ->
  masked_where (less_than rho v) z = Ok zm ->
  map (map drop_mask) (arr_rows zm) = map (map drop_mask) (arr_rows z) /\
  arr_ncols zm = arr_ncols z.
Proof.
  unfold masked_where. intros Hrho Hz H.
  destruct (shape_eqb _ _) eqn:E; [| discriminate H].
  apply shape_eqb_eq in E. rewrite less_than_shape in E.
  unfold shape, nrows in E. injection E as Hn Hc.
  inversion H; subst zm; clear H. cbn [arr_rows arr_ncols].
  split; [| reflexivity].
  apply (map2_mask_rows (n := arr_ncols z)).
  - cbn [make_mask less_than arr_rows]. rewrite !length_map. exact Hn.
  - cbn [make_mask less_than arr_rows]. apply Forall_map. apply Forall_map.
    eapply Forall_impl; [| exact Hrho].
    intros r Hr. cbv beta. rewrite !length_map. congruence.
  - exact Hz.
Qed.

Lemma take_map {A B : Type} (f : A -> B) (l : list A) (ids : list nat)
    (r : list A) :
  take l ids = Ok r -> take (map f l) ids = Ok (map f r).
Proof.
  unfold take. revert r. induction ids as [| i ids IH]; intros r H.
  - inversion H. reflexivity.
  - cbn [mapM] in H |- *. inv_bind_as H x Hx. inv_bind_as H xs Hxs.
    inversion H; subst r. rewrite nth_error_map.
    destruct (nth_error l i) as [y |]; [| discriminate Hx].
    inversion Hx; subst x. cbn [option_map bind].
    rewrite (IH _ Hxs). reflexivity.
Qed.

Lemma map_twice {A B : Type} (f : A -> B) (l : list A) :
  map f (twice l) = twice (map f l).
Proof.
  unfold twice. induction l as [| a l IH]; [reflexivity |].
  cbn [flat_map map app]. rewrite IH. reflexivity.
Qed.

(** With or without the filter, the field of a sweep carries the same
    data. *)
Lemma sweep_field_filter_data (argsort : list Q -> list nat) (radar : Radar)
    (v v' : Q) (sweep : Z) (zt zu : marray) :
  (forall z, get_field radar sweep "reflectivity" = Ok z -> rectangular z) ->
  (forall z, get_field radar sweep "cross_correlation_ratio" = Ok z ->
             rectangular z) ->
  sweep_field argsort radar true v sweep = Ok zt ->
  sweep_field argsort radar false v' sweep = Ok zu ->
  map (map drop_mask) (arr_rows zt) = map (map drop_mask) (arr_rows zu) /\
  arr_ncols zt = arr_ncols zu.
Proof.
  intros Hrz Hrrho Ht Hu. unfold sweep_field, rhv_filter_step in Ht, Hu.
  inv_bind_as Ht s Hs. inv_bind_as Hu s' Hs'.
  rewrite Hs in Hs'. inversion Hs'; subst s'.
  inv_bind_as Ht e He. inv_bind_as Hu e' He'.
  rewrite He in He'. inversion He'; subst e'.
  inv_bind_as Ht z Hz. inv_bind_as Hu z1 Hz1.
  rewrite Hz in Hz1. inversion Hz1; subst z1.
  inv_bind_as Ht zm Hzm. inv_bind_as Hzm rho Hrho.
  inv_bind_as Hu z2 Hz2. inversion Hz2; subst z2.
  destruct (@masked_where_data rho z zm v (Hrrho _ Hrho) (Hrz _ Hz) Hzm)
    as [Hdata Hcols].
  inv_bind_as Ht zll Hre. inv_bind_as Hu zll' Hre'.
  destruct (reorder_Ok _ _ _ _ _ Hre) as [Hrz1 [Hrlon _]].
  destruct (reorder_Ok _ _ _ _ _ Hre') as [Hrz2 [Hrlon' _]].
  rewrite Hrlon in Hrlon'. inversion Hrlon' as [Hlon].
  inversion Ht; subst zt. inversion Hu; subst zu. rewrite <- Hlon.
  destruct (take_rows_spec _ _ Hrz1) as [_ [Hc1 _]].
  destruct (take_rows_spec _ _ Hrz2) as [_ [Hc2 _]].
  assert (Hrows : map (map drop_mask) (arr_rows (fst (fst zll)))
                  = map (map drop_mask) (arr_rows (fst (fst zll')))).
  { unfold take_rows in Hrz1, Hrz2.
    inv_bind_as Hrz1 r1 Hr1. inv_bind_as Hrz2 r2 Hr2.
    inversion Hrz1 as [E1]. inversion Hrz2 as [E2]. cbn [arr_rows].
    apply (take_map (map drop_mask)) in Hr1.
    apply (take_map (map drop_mask)) in Hr2.
    rewrite Hdata, Hr2 in Hr1. inversion Hr1. reflexivity. }
  unfold upsample_if_coarse. destruct (nrows (snd (fst zll)) <? 720)%nat.
  - rewrite !upsample_ncols, !upsample_rows.
    fold (twice (arr_rows (fst (fst zll)))).
    fold (twice (arr_rows (fst (fst zll')))).
    rewrite !map_twice, Hrows. split; [reflexivity | congruence].
  - split; [exact Hrows | congruence].
Qed.

(** X9: for a volume of sweep 0 followed by at least one other sweep, all
    numbered differently from 0, the composite does not depend on the
    correlation filter: a call with [rhv_filter] on, whatever the threshold,
    and a call with [rhv_filter] off return the same composite array
    whenever both complete. *)
Theorem filter_has_no_effect_on_multi_sweep_composite
    (argsort : list Q -> list nat) (num2date : string -> list Q -> result (list Z))
    (radar : Radar) (v v' : Q) (verbose verbose' : bool)
    (d d' : comp_dict) (a : Z) (rest : list Z) :
  sweep_number radar = 0%Z :: a :: rest ->
  Forall (fun s => s <> 0%Z) (a :: rest) ->
  (forall s z, get_field radar s "reflectivity" = Ok z -> rectangular z) ->
  (forall s z, get_field radar s "cross_correlation_ratio" = Ok z ->
               rectangular z) ->
  composite_reflectivity argsort num2date radar true v verbose = Ok d ->
  composite_reflectivity argsort num2date radar false v' verbose' = Ok d' ->
  data (composite_reflectivity_entry d)
  = data (composite_reflectivity_entry d').
Proof.
  intros Hsweeps Hrest Hrz Hrrho H H'.
  destruct (@completed_stack _ _ _ _ _ _ _ _ Hsweeps Hrest H)
    as [z0 [fs [Hfield [Hmap [_ [Hshape Hrows]]]]]].
  destruct (@completed_stack _ _ _ _ _ _ _ _ Hsweeps Hrest H')
    as [z0' [fs' [Hfield' [Hmap' [_ [Hshape' Hrows']]]]]].
  destruct (@sweep_field_filter_data _ _ _ _ _ _ _ (Hrz 0%Z) (Hrrho 0%Z)
              Hfield Hfield')
    as [H0 Hc0].
  assert (Hfs : unmask_layers (map (@arr_rows cell) fs)
                = unmask_layers (map (@arr_rows cell) fs')).
  { pose proof (mapM_Forall2 _ _ Hmap) as F.
    pose proof (mapM_Forall2 _ _ Hmap') as F'.
    clear - F F' Hrz Hrrho. revert fs' F'.
    induction F as [| s z l fs Hz _ IH]; intros fs' F';
      inversion F' as [| s' z' l' fs'' Hz' F'']; subst; [reflexivity |].
    cbn [map unmask_layers]. f_equal.
    - exact (proj1 (@sweep_field_filter_data _ _ _ _ _ _ _ (Hrz s) (Hrrho s)
                      Hz Hz')).
    - apply IH. exact F''. }
  assert (Hr : arr_rows (data (composite_reflectivity_entry d))
               = arr_rows (data (composite_reflectivity_entry d')))
    by (rewrite Hrows, Hrows', H0, Hfs; reflexivity).
  assert (Hc : arr_ncols (data (composite_reflectivity_entry d))
               = arr_ncols (data (composite_reflectivity_entry d'))).
  { unfold shape in Hshape, Hshape'.
    injection Hshape as _ Hs1. injection Hshape' as _ Hs2. congruence. }
  destruct (data (composite_reflectivity_entry d)) as [r1 c1].
  destruct (data (composite_reflectivity_entry d')) as [r2 c2].
  cbn [arr_rows arr_ncols] in Hr, Hc. subst. reflexivity.
Qed.

Lemma filter_has_no_effect_on_multi_sweep_composite_witness :
  exists d d',
    sweep_number clutter_volume = 0%Z :: 1%Z :: [] /\
    Forall (fun s => s <> 0%Z) [1%Z] /\
    run clutter_volume true default_rhv_value = Ok d /\
    run clutter_volume false default_rhv_value = Ok d' /\
    data (composite_reflectivity_entry d)
    = data (composite_reflectivity_entry d').
Proof.
  destruct (run clutter_volume true default_rhv_value) as [d | e] eqn:E;
    [| vm_compute in E; discriminate E].
  destruct (run clutter_volume false default_rhv_value) as [d' | e] eqn:E';
    [| vm_compute in E'; discriminate E'].
  assert (Hrest : Forall (fun s => s <> 0%Z) [1%Z])
    by (constructor; [discriminate | constructor]).
  assert (Hrect : forall name s z,
             get_field clutter_volume s name = Ok z -> rectangular z).
  { intros name s z Hz. cbn [clutter_volume get_field] in Hz.
    unfold get_field_of in Hz.
    assert (Hall : forall sweeps,
               Forall rectangular sweeps ->
               py_getitem sweeps s = Ok z -> rectangular z).
    { intros sweeps Hs Hg. unfold py_getitem in Hg.
      destruct (_ && _)%bool; [| discriminate Hg].
      destruct (nth_error sweeps _) as [x |] eqn:En; [| discriminate Hg].
      inversion Hg; subst x. rewrite Forall_forall in Hs.
      apply Hs. eapply nth_error_In. exact En. }
    cbn [lookup_field] in Hz.
    destruct (String.eqb "reflectivity" name).
    - eapply Hall; [| exact Hz]. repeat constructor.
    - destruct (String.eqb "cross_correlation_ratio" name);
        [| discriminate Hz].
      eapply Hall; [| exact Hz]. repeat constructor. }
  exists d, d'. split; [reflexivity |]. split; [exact Hrest |].
  split; [reflexivity |]. split; [reflexivity |].
  exact (@filter_has_no_effect_on_multi_sweep_composite NpySort.argsort
           decoded clutter_volume default_rhv_value default_rhv_value
           default_verbose default_verbose d d' 1%Z [] eq_refl Hrest
           (Hrect "reflectivity") (Hrect "cross_correlation_ratio") E E').
Defined.

(* ===================================================================== *)
(** ** No ray is lost by the reordering *)
(* ===================================================================== *)

Lemma take_cons_shift {A : Type} (a : A) (l : list A) (ids : list nat) :
  take (a :: l) (map S ids) = take l ids.
Proof.
  unfold take. induction ids as [| i ids IH]; [reflexivity |].
  cbn [map mapM nth_error]. rewrite IH. reflexivity.
Qed.

Lemma take_all {A : Type} (l : list A) : take l (seq 0 (length l)) = Ok l.
Proof.
  induction l as [| a l IH]; [reflexivity |].
  cbn [length seq]. rewrite <- seq_shift.
  unfold take. cbn [mapM nth_error bind].
  fold (take (a :: l) (map S (seq 0 (length l)))).
  rewrite take_cons_shift, IH. reflexivity.
Qed.

Lemma take_Permutation {A : Type} (l : list A) (ids ids' : list nat) :
  Permutation ids ids' ->
  forall r, take l ids = Ok r ->
            exists r', take l ids' = Ok r' /\ Permutation r r'.
Proof.
  unfold take. induction 1 as [| i ids ids' _ IH | i k ids | a b c _ IH1 _ IH2];
    intros r H.
  - exists r. split; [exact H | apply Permutation_refl].
  - cbn [mapM] in H |- *. inv_bind_as H x Hx. inv_bind_as H xs Hxs.
    inversion H; subst r. destruct (IH _ Hxs) as [r' [Hr' Hp]].
    exists (x :: r'). rewrite Hx. cbn [bind]. rewrite Hr'.
    split; [reflexivity | constructor; exact Hp].
  - cbn [mapM] in H |- *. inv_bind_as H x Hx. inv_bind_as H ys Hys.
    inversion H; subst r; clear H.
    inv_bind_as Hys y Hy. inv_bind_as Hys xs Hxs. inversion Hys; subst ys.
    exists (y :: x :: xs). rewrite Hx. cbn [bind]. rewrite Hy. cbn [bind].
    rewrite Hxs. split; [reflexivity | apply perm_swap].
  - destruct (IH1 _ H) as [r1 [H1 P1]]. destruct (IH2 _ H1) as [r2 [H2 P2]].
    exists r2. split; [exact H2 | eapply Permutation_trans; eassumption].
Qed.

Lemma take_rows_Permutation {A : Type} (a b : ndarray2 A) (ids : list nat) :
  Permutation ids (seq 0 (nrows a)) ->
  take_rows a ids = Ok b ->
  Permutation (arr_rows b) (arr_rows a).
Proof.
  intros Hp H. unfold take_rows in H. inv_bind_as H r Hr.
  inversion H; subst b; clear H. cbn [arr_rows].
  destruct (@take_Permutation _ (arr_rows a) _ _ Hp _ Hr) as [r' [Hr' P]].
  unfold nrows in Hr'. rewrite take_all in Hr'. inversion Hr'; subst r'.
  exact P.
Qed.

(** X10: when the field and both coordinate grids of a sweep have exactly
    one row per azimuth, the reordered field and the reordered grids each
    consist of the rows of their input, every row once: the reordering
    neither drops nor repeats a ray. *)
Theorem reorder_keeps_every_ray
    (argsort : list Q -> list nat)
    (z z' : marray) (lon lat lon' lat' : ndarray2 Q) (az : list Q) :
  is_argsort az (argsort az) ->
  length az = nrows z ->
  length az = nrows lon ->
  length az = nrows lat ->
  reorder argsort z lon lat az = Ok (z', lon', lat') ->
  Permutation (arr_rows z') (arr_rows z) /\
  Permutation (arr_rows lon') (arr_rows lon) /\
  Permutation (arr_rows lat') (arr_rows lat).
Proof.
  intros [Hperm _] Hz Hlon Hlat H.
  destruct (reorder_Ok _ _ _ _ _ H) as [Hrz [Hrlon Hrlat]].
  cbn [fst snd] in Hrz, Hrlon, Hrlat.
  split; [| split].
  - apply (@take_rows_Permutation _ z z' (argsort az));
      [rewrite <- Hz; exact Hperm | exact Hrz].
  - apply (@take_rows_Permutation _ lon lon' (argsort az));
      [rewrite <- Hlon; exact Hperm | exact Hrlon].
  - apply (@take_rows_Permutation _ lat lat' (argsort az));
      [rewrite <- Hlat; exact Hperm | exact Hrlat].
Qed.

Lemma reorder_keeps_every_ray_witness :
  let z := unmasked (array_of [[11; 12]; [21; 22]; [31; 32]; [41; 42]]%Z 2) in
  let lon := gate_longitude four_ray_volume in
  let lat := gate_latitude four_ray_volume in
  let az := azimuth four_ray_volume in
  exists z' lon' lat',
    is_argsort az (NpySort.argsort az) /\
    length az = nrows z /\ length az = nrows lon /\ length az = nrows lat /\
    reorder NpySort.argsort z lon lat az = Ok (z', lon', lat') /\
    Permutation (arr_rows lon') (arr_rows lon) /\
    arr_rows lon' = arr_rows (array_of [[1; 2]; [7; 8]; [5; 6]; [3; 4]]%Z 2).
Proof.
  intros z lon lat az.
  assert (Hsort : is_argsort az (NpySort.argsort az))
    by (apply is_argsortb_sound; vm_compute; reflexivity).
  destruct (reorder NpySort.argsort z lon lat az) as [[[z' lon'] lat'] | e]
    eqn:E; [| vm_compute in E; discriminate E].
  exists z', lon', lat'.
  destruct (@reorder_keeps_every_ray NpySort.argsort z z' lon lat lon' lat' az
              Hsort eq_refl eq_refl eq_refl E) as [_ [Hlon _]].
  split; [exact Hsort |]. repeat (split; [reflexivity |]).
  split; [exact Hlon |].
  vm_compute in E. inversion E. reflexivity.
Defined.

(* ===================================================================== *)
(** ** The index range of sweep 0 *)
(* ===================================================================== *)

Lemma py_slice_length {A : Type} (l : list A) (s e : Z) :
  (0 <= s <= e)%Z ->
  (e <= Z.of_nat (length l))%Z ->
  length (py_slice l s e) = Z.to_nat (e - s).
Proof.
  intros Hs He. unfold py_slice, slice_bound.
  destruct (Z.ltb_spec s 0); [lia |].
  destruct (Z.ltb_spec e 0); [lia |].
  rewrite length_firstn, length_skipn. lia.
Qed.

(** X11: the end index of a sweep is inclusive.  In a completed call, when
    the index range [s .. e] of sweep 0 lies within the azimuth array and
    the argsort of its azimuths is a sorting permutation, the returned
    longitude and latitude grids have exactly [e - s + 1] rows. *)
Theorem returned_grids_cover_inclusive_range
    (argsort : list Q -> list nat) (num2date : string -> list Q -> result (list Z))
    (radar : Radar) (rhv_filter : bool) (rhv_value : Q) (verbose : bool)
    (d : comp_dict) (s e : Z) :
  composite_reflectivity argsort num2date radar rhv_filter rhv_value verbose
  = Ok d ->
  py_getitem (sweep_start_ray_index radar) 0 = Ok s ->
  py_getitem (sweep_end_ray_index radar) 0 = Ok e ->
  (0 <= s <= e)%Z ->
  (e < Z.of_nat (length (azimuth radar)))%Z ->
  is_argsort (py_slice (azimuth radar) s (e + 1))
             (argsort (py_slice (azimuth radar) s (e + 1))) ->
  nrows (data (longitude d)) = Z.to_nat (e - s + 1) /\
  nrows (data (latitude d)) = Z.to_nat (e - s + 1).
Proof.
  intros H Hs He Hse Hlen Hsort.
  unfold composite_reflectivity in H. inv_bind_as H st Hloop.
  assert (Hret :
    (forall g, lon_0 st = Some g ->
               retained_from_sweep_0 argsort radar (gate_longitude radar) g) /\
    (forall g, lat_0 st = Some g ->
               retained_from_sweep_0 argsort radar (gate_latitude radar) g)).
  { eapply (foldM_invariant
              (fun st =>
                 (forall g, lon_0 st = Some g ->
                    retained_from_sweep_0 argsort radar (gate_longitude radar) g) /\
                 (forall g, lat_0 st = Some g ->
                    retained_from_sweep_0 argsort radar (gate_latitude radar) g)));
      [| | exact Hloop].
    - intros s0 a s' Hs0 Hstep. eapply sweep_body_retains; eassumption.
    - split; intros g Hg; discriminate Hg. }
  destruct Hret as [Hlon Hlat].
  unfold finish in H.
  inv_bind_as H zs Hzs. inv_bind_as H compz Hmax. inv_bind_as H stamps Hstamps.
  inv_bind_as H lon0 Hlon0. inv_bind_as H lat0 Hlat0.
  inversion H; subst d; clear H. cbn [longitude latitude data].
  assert (Hl0 : lon_0 st = Some lon0)
    by (destruct (lon_0 st); [inversion Hlon0; reflexivity | discriminate Hlon0]).
  assert (Hl1 : lat_0 st = Some lat0)
    by (destruct (lat_0 st); [inversion Hlat0; reflexivity | discriminate Hlat0]).
  assert (Hcount : forall grid g0,
             retained_from_sweep_0 argsort radar grid g0 ->
             nrows g0 = Z.to_nat (e - s + 1)).
  { intros grid g0 [s' [e' [sorted [Hs' [He' [Htake [Hwrap _]]]]]]].
    rewrite Hs in Hs'. inversion Hs'; subst s'.
    rewrite He in He'. inversion He'; subst e'.
    destruct (close_wrap_spec _ Hwrap) as [Hn _].
    destruct (take_rows_spec _ _ Htake) as [Hn' _].
    rewrite Hn, Hn', (is_argsort_length Hsort).
    rewrite py_slice_length by lia. f_equal. lia. }
  split; [apply (Hcount _ _ (Hlon _ Hl0)) | apply (Hcount _ _ (Hlat _ Hl1))].
Qed.

Lemma returned_grids_cover_inclusive_range_witness :
  exists d,
    run four_ray_volume false default_rhv_value = Ok d /\
    py_getitem (sweep_start_ray_index four_ray_volume) 0 = Ok 0%Z /\
    py_getitem (sweep_end_ray_index four_ray_volume) 0 = Ok 3%Z /\
    (0 <= 0 <= 3)%Z /\
    (3 < Z.of_nat (length (azimuth four_ray_volume)))%Z /\
    nrows (data (longitude d)) = 4%nat /\
    nrows (data (latitude d)) = 4%nat.
Proof.
  destruct (run four_ray_volume false default_rhv_value) as [d | e] eqn:E;
    [| vm_compute in E; discriminate E].
  assert (Hse : (0 <= 0 <= 3)%Z) by lia.
  assert (Hlen : (3 < Z.of_nat (length (azimuth four_ray_volume)))%Z)
    by (vm_compute; reflexivity).
  assert (Hsort : is_argsort (py_slice (azimuth four_ray_volume) 0 (3 + 1))
                    (NpySort.argsort
                       (py_slice (azimuth four_ray_volume) 0 (3 + 1))))
    by (apply is_argsortb_sound; vm_compute; reflexivity).
  exists d. split; [reflexivity |].
  split; [reflexivity |]. split; [reflexivity |].
  split; [exact Hse |]. split; [exact Hlen |].
  exact (@returned_grids_cover_inclusive_range NpySort.argsort decoded
           four_ray_volume false default_rhv_value default_verbose d
           0%Z 3%Z E eq_refl eq_refl Hse Hlen Hsort).
Defined.

(* ===================================================================== *)
(** ** One index array for the field and the grids *)
(* ===================================================================== *)

(** X12: whenever the reordering of a sweep succeeds, one and the same
    index array, the one [argsort] returned for the azimuths, has been
    applied to the field and to both coordinate grids: the three results
    have one row per index, keep their gates, and row [p] of each of them is
    the input row of the ray [i] that the index array holds at position
    [p], so the reflectivity, the longitude and the latitude found in an
    output row belong to the same ray. *)
Theorem reorder_applies_one_index_array
    (argsort : list Q -> list nat)
    (z z' : marray) (lon lat lon' lat' : ndarray2 Q) (az : list Q) :
  reorder argsort z lon lat az = Ok (z', lon', lat') ->
  (nrows z' = length (argsort az) /\ arr_ncols z' = arr_ncols z) /\
  (nrows lon' = length (argsort az) /\ arr_ncols lon' = arr_ncols lon) /\
  (nrows lat' = length (argsort az) /\ arr_ncols lat' = arr_ncols lat) /\
  forall p i,
    nth_error (argsort az) p = Some i ->
    exists rz rlon rlat,
      nth_error (arr_rows z) i = Some rz /\
      nth_error (arr_rows z') p = Some rz /\
      nth_error (arr_rows lon) i = Some rlon /\
      nth_error (arr_rows lon') p = Some rlon /\
      nth_error (arr_rows lat) i = Some rlat /\
      nth_error (arr_rows lat') p = Some rlat.
Proof.
  intros H. destruct (reorder_Ok _ _ _ _ _ H) as [Hz [Hlon Hlat]].
  cbn [fst snd] in Hz, Hlon, Hlat.
  destruct (take_rows_spec _ _ Hz) as [Hnz [Hcz Hrz]].
  destruct (take_rows_spec _ _ Hlon) as [Hnlon [Hclon Hrlon]].
  destruct (take_rows_spec _ _ Hlat) as [Hnlat [Hclat Hrlat]].
  split; [split; assumption |]. split; [split; assumption |].
  split; [split; assumption |].
  intros p i Hp.
  assert (Hlt : (p < length (argsort az))%nat)
    by (apply nth_error_Some; rewrite Hp; discriminate).
  specialize (Hrz _ _ Hp). specialize (Hrlon _ _ Hp). specialize (Hrlat _ _ Hp).
  destruct (nth_error (arr_rows z') p) as [rz |] eqn:Ez;
    [| apply nth_error_None in Ez; unfold nrows in Hnz; lia].
  destruct (nth_error (arr_rows lon') p) as [rlon |] eqn:Elon;
    [| apply nth_error_None in Elon; unfold nrows in Hnlon; lia].
  destruct (nth_error (arr_rows lat') p) as [rlat |] eqn:Elat;
    [| apply nth_error_None in Elat; unfold nrows in Hnlat; lia].
  exists rz, rlon, rlat. repeat split; congruence.
Qed.

Lemma reorder_applies_one_index_array_witness :
  let z := unmasked (array_of [[11; 12]; [21; 22]; [31; 32]; [41; 42]]%Z 2) in
  let lon := gate_longitude four_ray_volume in
  let lat := gate_latitude four_ray_volume in
  let az := azimuth four_ray_volume in
  exists z' lon' lat',
    reorder NpySort.argsort z lon lat az = Ok (z', lon', lat') /\
    NpySort.argsort az = [0; 3; 2; 1]%nat /\
    nth_error (arr_rows z') 1 = nth_error (arr_rows z) 3 /\
    nth_error (arr_rows lon') 1 = nth_error (arr_rows lon) 3 /\
    nth_error (arr_rows lat') 1 = nth_error (arr_rows lat) 3.
Proof.
  intros z lon lat az.
  destruct (reorder NpySort.argsort z lon lat az) as [[[z' lon'] lat'] | e]
    eqn:E; [| vm_compute in E; discriminate E].
  exists z', lon', lat'. split; [reflexivity |].
  split; [vm_compute; reflexivity |].
  destruct (@reorder_applies_one_index_array NpySort.argsort z z' lon lat
              lon' lat' az E) as [_ [_ [_ Hrows]]].
  destruct (Hrows 1%nat 3%nat ltac:(vm_compute; reflexivity))
    as [rz [rlon [rlat [H1 [H2 [H3 [H4 [H5 H6]]]]]]]].
  repeat split; congruence.
Defined.
